(** * code-sync: the operational-transformation engine and the document sequencer

    A shallow embedding of the collaboration module (the OT engine and the
    class [ServerDocumentState] that [server.ts] imports) and of the two
    [handleLeave] handlers ([server.ts] and the standalone socket server),
    followed by the properties of the specification stated over them.

    Modelling conventions.
    - A JavaScript string is the list of its code units ([list ascii]);
      [String.prototype.slice] and [Array.prototype.slice] are modelled by
      [slice] / [slice_from], with the relative-index rule of the language
      (a negative index counts from the end, every index is clamped).
    - A JavaScript number used as a position, a length or a version is an
      integer ([Z]); rounding of very large doubles, fractions and NaN are
      outside the model.
    - An optional field ([text?], [length?]) is an [option]; [x || d] on such
      a field is [default d x] (the empty string and 0 are falsy and are
      replaced by themselves).
    - A class instance that is mutated in place is threaded explicitly:
      a method returns its result together with the new state. *)

From Stdlib Require Import ZArith Ascii String.
From stdpp Require Import base numbers list strings gmap.

Local Open Scope Z_scope.

(** ** JavaScript strings and [slice] *)

Abbreviation jsstring := (list ascii).

(** The code units of a string literal. *)
Definition str (s : string) : jsstring := list_ascii_of_string s.

(** [s.length], as an integer. *)
Definition len {A} (s : list A) : Z := Z.of_nat (length s).

(** The relative-index rule shared by [slice] on strings and arrays:
    a negative index is counted from the end; the result is clamped
    to [0, len]. *)
Definition rel_index (n i : Z) : Z :=
  if i <? 0 then Z.max (n + i) 0 else Z.min i n.

(** [s.slice(start, end)] *)
Definition slice {A} (s : list A) (start end_ : Z) : list A :=
  let from := rel_index (len s) start in
  let to := rel_index (len s) end_ in
  take (Z.to_nat (to - from)) (drop (Z.to_nat from) s).

(** [s.slice(start)] *)
Definition slice_from {A} (s : list A) (start : Z) : list A :=
  drop (Z.to_nat (rel_index (len s) start)) s.

(** ** Operations *)

Inductive OperationType : Type :=
  | insert
  | delete
  | retain
  | unrecognized (tag : string).   (* a [type] outside the declared union *)

Module TextOperation.
Record t : Type := mk {
  type : OperationType;
  position : Z;
  text : option jsstring;     (* for insert *)
  length : option Z;          (* for delete/retain *)
}.

(** [{ ...op, position: p }] *)
Definition with_position (op : t) (p : Z) : t :=
  mk (type op) p (text op) (length op).

(** [{ ...op, length: l }] *)
Definition with_length (op : t) (l : Z) : t :=
  mk (type op) (position op) (text op) (Some l).

(** [{ ...op, position: p, length: l }] *)
Definition with_position_length (op : t) (p l : Z) : t :=
  mk (type op) p (text op) (Some l).

(** [op.text || ""] *)
Definition text_or_empty (op : t) : jsstring := default [] (text op).

(** [op.length || 0] *)
Definition length_or_0 (op : t) : Z := default 0 (length op).

(** [op.text?.length || 0] *)
Definition text_length_or_0 (op : t) : Z :=
  match text op with Some s => len s | None => 0 end.
End TextOperation.

Module DocumentOperation.
Record t : Type := mk {
  id : string;
  documentId : string;
  userId : string;
  version : Z;
  operations : list TextOperation.t;
  timestamp : Z;
}.

(** [{ ...docOp, operations: ops }] *)
Definition with_operations (d : t) (ops : list TextOperation.t) : t :=
  mk (id d) (documentId d) (userId d) (version d) ops (timestamp d).

(** [{ ...docOp, version: v }] *)
Definition with_version (d : t) (v : Z) : t :=
  mk (id d) (documentId d) (userId d) v (operations d) (timestamp d).
End DocumentOperation.

(** ** The OT engine *)

(** apply a single op to a string and return the result *)
Definition applyOperation (content : jsstring) (op : TextOperation.t) : jsstring :=
  match TextOperation.type op with
  | insert =>
      if (TextOperation.position op <? 0)
         || (TextOperation.position op >? len content)
      then
        let pos := Z.max 0 (Z.min (TextOperation.position op) (len content)) in
        slice content 0 pos ++ TextOperation.text_or_empty op
          ++ slice_from content pos
      else
        slice content 0 (TextOperation.position op)
          ++ TextOperation.text_or_empty op
          ++ slice_from content (TextOperation.position op)
  | delete =>
      let deleteEnd :=
        Z.min (TextOperation.position op + TextOperation.length_or_0 op)
              (len content) in
      slice content 0 (TextOperation.position op) ++ slice_from content deleteEnd
  | retain => content
  | unrecognized _ => content
  end.

(** apply all ops from a DocumentOperation to a document *)
Definition applyOperations (content : jsstring) (docOp : DocumentOperation.t)
  : jsstring :=
  fold_left applyOperation (DocumentOperation.operations docOp) content.

(** Transform operation A against operation B *)
Definition transformOperation (opA opB : TextOperation.t) : TextOperation.t :=
  let posA := TextOperation.position opA in
  let posB := TextOperation.position opB in
  match TextOperation.type opA, TextOperation.type opB with
  | insert, insert =>
      if posA <=? posB then opA
      else TextOperation.with_position opA
             (posA + TextOperation.text_length_or_0 opB)
  | insert, delete =>
      if posA <=? posB then opA
      else if posA >=? posB + TextOperation.length_or_0 opB then
        TextOperation.with_position opA (posA - TextOperation.length_or_0 opB)
      else TextOperation.with_position opA posB
  | delete, insert =>
      if posA >=? posB then
        TextOperation.with_position opA
          (posA + TextOperation.text_length_or_0 opB)
      else if posA + TextOperation.length_or_0 opA <=? posB then opA
      else TextOperation.with_length opA
             (TextOperation.length_or_0 opA + TextOperation.text_length_or_0 opB)
  | delete, delete =>
      let aEnd := posA + TextOperation.length_or_0 opA in
      let bEnd := posB + TextOperation.length_or_0 opB in
      if aEnd <=? posB then opA
      else if posA >=? bEnd then
        TextOperation.with_position opA (posA - TextOperation.length_or_0 opB)
      else
        let overlapStart := Z.max posA posB in
        let overlapEnd := Z.min aEnd bEnd in
        let overlapLen := overlapEnd - overlapStart in
        let newPos := Z.min posA posB in
        let newLen := TextOperation.length_or_0 opA - overlapLen in
        if newLen <=? 0 then TextOperation.mk retain 0 None (Some 0)
        else TextOperation.with_position_length opA newPos newLen
  | _, _ => opA
  end.

(** transform an entire DocumentOperation against another *)
Definition transformDocumentOperation (opsA opsB : list TextOperation.t)
  : list TextOperation.t :=
  fold_left (fun transformed opB =>
               map (fun opA => transformOperation opA opB) transformed)
            opsB opsA.

(** Operation literals. *)
Definition ins (p : Z) (s : string) : TextOperation.t :=
  TextOperation.mk insert p (Some (str s)) None.
Definition del (p l : Z) : TextOperation.t :=
  TextOperation.mk delete p None (Some l).

(** ** The sequencer: [ServerDocumentState] *)

Module ServerDocumentState.
Record t : Type := mk {
  content : jsstring;
  version : Z;
  pendingOps : gmap string DocumentOperation.t;
  history : list DocumentOperation.t;
}.

(** [new ServerDocumentState(content, version)] *)
Definition new (content : jsstring) (version : Z) : t :=
  mk content version ∅ [].

(** What [receiveOperation] returns when it does not return [null]. *)
Record result : Type := mk_result {
  transformed : DocumentOperation.t;
  newContent : jsstring;
  newVersion : Z;
}.

(** [this.history.filter(h => h.version >= docOp.version
                              && h.userId !== docOp.userId)] *)
Definition missedOps (this : t) (docOp : DocumentOperation.t)
  : list DocumentOperation.t :=
  List.filter
    (fun h =>
       (DocumentOperation.version h >=? DocumentOperation.version docOp)
       && negb (String.eqb (DocumentOperation.userId h)
                           (DocumentOperation.userId docOp)))
    (history this).

(** The tail of [receiveOperation]: apply the (possibly transformed)
    operation, bump the version, push onto the history and keep the
    last 100 entries. *)
Definition accept (this : t) (docOp : DocumentOperation.t) : option result * t :=
  let newContent := applyOperations (content this) docOp in
  let newVersion := version this + 1 in
  let transformed := DocumentOperation.with_version docOp newVersion in
  let pushed := history this ++ [transformed] in
  let kept := if len pushed >? 100 then slice_from pushed (-100) else pushed in
  (Some (mk_result transformed newContent newVersion),
   mk newContent newVersion (pendingOps this) kept).

(** [receiveOperation(docOp)]: the result ([None] for [null]) and the
    instance after the call. The [console.warn] of the rejecting branch
    is not part of the state. *)
Definition receiveOperation (this : t) (docOp : DocumentOperation.t)
  : option result * t :=
  if DocumentOperation.version docOp <? version this then
    let transformedOps :=
      fold_left
        (fun ops missed =>
           transformDocumentOperation ops (DocumentOperation.operations missed))
        (missedOps this docOp)
        (DocumentOperation.operations docOp) in
    accept this (DocumentOperation.with_operations docOp transformedOps)
  else if DocumentOperation.version docOp >? version this then
    (None, this)
  else
    accept this docOp.

(** The server's [document:operation] handler hands every incoming
    operation of a document to the same instance, one after the other. *)
Fixpoint receiveAll (this : t) (docOps : list DocumentOperation.t)
  : list (option result) * t :=
  match docOps with
  | [] => ([], this)
  | docOp :: rest =>
      let '(r, this') := receiveOperation this docOp in
      let '(rs, final) := receiveAll this' rest in
      (r :: rs, final)
  end.
End ServerDocumentState.

(** The results of the accepted operations, in order. *)
Definition accepted (rs : list (option ServerDocumentState.result))
  : list ServerDocumentState.result :=
  omap id rs.

(** A [DocumentOperation] literal: author, base version, operations. *)
Definition docop (user : string) (base : Z) (ops : list TextOperation.t)
  : DocumentOperation.t :=
  DocumentOperation.mk "op" "doc" user base ops 0.

(** ** Presence and the two [handleLeave] handlers *)

Module CursorPosition.
Record t : Type := mk { line : Z; ch : Z }.
End CursorPosition.

Module SelectionRange.
Record t : Type := mk { anchor : CursorPosition.t; head : CursorPosition.t }.
End SelectionRange.

Module UserPresence.
Record t : Type := mk {
  userId : string;
  name : string;
  color : string;
  cursor : option CursorPosition.t;
  selection : option SelectionRange.t;
  lastActive : Z;
}.
End UserPresence.

(** The events a leave handler emits. *)
Inductive ServerEvent : Type :=
  | presence_left (userId : string)                  (* "presence:left" *)
  | presence_update (users : list UserPresence.t).   (* "presence:update" *)

(** Where an event goes: [io.to(room).emit] reaches every socket of the
    room, [socket.to(room).emit] every socket of the room but the sender. *)
Inductive Emit : Type :=
  | io_to (room : string) (e : ServerEvent)
  | socket_to (room : string) (e : ServerEvent).

(** A room, [Map<string, UserPresence>]: the entries in insertion order,
    which is the order [values()] yields them in. *)
Abbreviation Room := (list (string * UserPresence.t)).

(** [room.get(key)]; it is [Some] exactly when [room.has(key)]. *)
Definition room_get (room : Room) (key : string) : option UserPresence.t :=
  snd <$> List.find (fun kv => String.eqb kv.1 key) room.

Definition room_delete (room : Room) (key : string) : Room :=
  List.filter (fun kv => negb (String.eqb kv.1 key)) room.

Definition room_values (room : Room) : list UserPresence.t := map snd room.

(** *** [server.ts]: the server in front of [ServerDocumentState] *)

Module Server.
(** The request [document:save] sends to the document API, the only
    persistence of this server. *)
Record SaveRequest : Type := {
  save_documentId : string;
  save_content : jsstring;
  save_version : Z;
}.

Record t : Type := mk {
  documentStates : gmap string ServerDocumentState.t;
  roomUsers : gmap string Room;           (* documentId -> userId -> presence *)
  saveRequests : list SaveRequest;        (* requests sent so far *)
  emitted : list Emit;                    (* events emitted so far *)
}.

(** [handleLeave(socket, documentId, userId)]; [socket.leave] only changes
    the transport's membership of the leaving socket. [if (userId)] fails
    for [null] and for the empty string. *)
Definition handleLeave (w : t) (documentId : string) (userId : option string) : t :=
  match userId with
  | None | Some EmptyString => w
  | Some userId =>
      let roomUsers' :=
        match roomUsers w !! documentId with
        | Some room =>
            let room := room_delete room userId in
            if Nat.eqb (length room) 0 then
              (* could also clean up doc state here but lets keep it cached *)
              base.delete documentId (roomUsers w)
            else <[documentId := room]> (roomUsers w)
        | None => roomUsers w
        end in
      mk (documentStates w) roomUsers' (saveRequests w)
         (emitted w ++ [socket_to ("doc:" +:+ documentId) (presence_left userId)])
  end.
End Server.

(** *** The standalone socket server *)

Module SocketServer.
(** [interface ServerDocumentState extends DocumentState] *)
Record DocState : Type := mkDocState {
  id : string;
  title : string;
  language : string;
  content : jsstring;
  version : Z;
  sockets : gset string;
  lastSave : Z;
}.

(** The columns of a [document] row that the server writes. *)
Record Row : Type := mkRow {
  row_content : jsstring;
  row_version : Z;
  row_updatedAt : Z;
}.

Record t : Type := mk {
  documentStates : gmap string DocState;
  roomUsers : gmap string Room;           (* documentId -> socketId -> presence *)
  db : gmap string Row;                   (* the store, by document id *)
  emitted : list Emit;
}.

(** [saveToDb(documentId, state)], run to completion: [update] writes the
    row of [documentId] and fails when there is none; on success the
    state's [lastSave] is set, on failure the error is logged and
    swallowed. Returns the store and the state object after the call. *)
Definition saveToDb (now : Z) (db : gmap string Row) (documentId : string)
    (state : DocState) : gmap string Row * DocState :=
  match db !! documentId with
  | Some _ =>
      (<[documentId := mkRow (content state) (version state) now]> db,
       mkDocState (id state) (title state) (language state) (content state)
                  (version state) (sockets state) now)
  | None => (db, state)
  end.

(** [handleLeave(socketId, documentId)], with the save it starts run to
    completion before any other event is handled. *)
Definition handleLeave (now : Z) (w : t) (socketId documentId : string) : t :=
  match roomUsers w !! documentId with
  | Some room =>
      match room_get room socketId with
      | Some user =>
          let room := room_delete room socketId in
          let emitted' :=
            emitted w
            ++ [io_to documentId (presence_left (UserPresence.userId user));
                io_to documentId (presence_update (room_values room))] in
          if Nat.eqb (length room) 0 then
            let roomUsers' := base.delete documentId (roomUsers w) in
            match documentStates w !! documentId with
            | Some state =>
                let '(db', _) := saveToDb now (db w) documentId state in
                mk (base.delete documentId (documentStates w)) roomUsers' db' emitted'
            | None => mk (documentStates w) roomUsers' (db w) emitted'
            end
          else
            mk (documentStates w) (<[documentId := room]> (roomUsers w)) (db w) emitted'
      | None => w
      end
  | None => w
  end.
End SocketServer.

(** ** Auxiliary notions used in the statements *)

(** The text [t] spliced into [c] before index [p]. *)
Definition splice (p : nat) (t c : jsstring) : jsstring :=
  take p c ++ t ++ drop p c.

(** [c] without the [l] code units from index [p] on. *)
Definition cut (p l : nat) (c : jsstring) : jsstring :=
  take p c ++ drop (p + l) c.

(** [Math.max(0, Math.min(p, n))] *)
Definition clamp (n p : Z) : Z := Z.max 0 (Z.min p n).


(** The last [n] elements of a list. *)
Definition last_n {A} (n : nat) (l : list A) : list A :=
  drop (length l - n) l.

(** The canonical operations of the accepted ones, in order of acceptance. *)
Definition canonical (rs : list (option ServerDocumentState.result))
  : list DocumentOperation.t :=
  map ServerDocumentState.transformed (accepted rs).

(** The specification's [transformBatch]: every element of [opsA] is
    transformed against every element of [opsB], in the order of [opsB]. *)
Definition transformBatch (opsA opsB : list TextOperation.t)
  : list TextOperation.t :=
  map (fun opA => fold_left transformOperation opsB opA) opsA.

(** The text operations of a run of history entries, oldest first. *)
Definition text_operations (hs : list DocumentOperation.t)
  : list TextOperation.t :=
  concat (map DocumentOperation.operations hs).

(** A history entry that an operation based on [docOp.version] is
    transformed against: not older than the base version, and authored
    by a different user. *)
Definition missed (docOp h : DocumentOperation.t) : Prop :=
  DocumentOperation.version docOp <= DocumentOperation.version h
  /\ DocumentOperation.userId h <> DocumentOperation.userId docOp.

#[global] Instance missed_dec docOp h : Decision (missed docOp h).
Proof. unfold missed. apply _. Defined.

(** The base version of [docOp] predates the oldest retained entry, that
    is, every retained entry (the oldest one has the smallest version). *)
Definition stale_beyond_history (this : ServerDocumentState.t)
    (docOp : DocumentOperation.t) : Prop :=
  ServerDocumentState.history this <> []
  /\ Forall (fun h => DocumentOperation.version docOp < DocumentOperation.version h)
            (ServerDocumentState.history this).

(** The outcome of accepting [docOp] rewritten to the operations [ops]:
    the canonical operation, the content and the version. *)
Definition accepted_as (this : ServerDocumentState.t)
    (docOp : DocumentOperation.t) (ops : list TextOperation.t)
  : ServerDocumentState.result :=
  ServerDocumentState.mk_result
    (DocumentOperation.mk
       (DocumentOperation.id docOp) (DocumentOperation.documentId docOp)
       (DocumentOperation.userId docOp) (ServerDocumentState.version this + 1)
       ops (DocumentOperation.timestamp docOp))
    (fold_left applyOperation ops (ServerDocumentState.content this))
    (ServerDocumentState.version this + 1).

(** The range [[position, position + length)] of a delete. *)
Definition range_end (op : TextOperation.t) : Z :=
  TextOperation.position op + TextOperation.length_or_0 op.

(** Neither range lies entirely before the other. *)
Definition overlapping (opA opB : TextOperation.t) : Prop :=
  TextOperation.position opB < range_end opA
  /\ TextOperation.position opA < range_end opB.

Definition overlap_length (opA opB : TextOperation.t) : Z :=
  Z.min (range_end opA) (range_end opB)
  - Z.max (TextOperation.position opA) (TextOperation.position opB).

(** The operation a fully overlapped delete degenerates to. *)
Definition noop : TextOperation.t := TextOperation.mk retain 0 None (Some 0).

(** *** Concrete documents *)

(** Scenario A: content ["abc"] at version 0; client 1 inserts, client 2
    deletes, both based on version 0. *)
Definition scenarioA_0 : ServerDocumentState.t :=
  ServerDocumentState.new (str "abc") 0.
Definition scenarioA_1 : ServerDocumentState.t :=
  (ServerDocumentState.receiveOperation scenarioA_0
     (docop "client1" 0 [ins 1 "X"])).2.
Definition scenarioA_2 : option ServerDocumentState.result * ServerDocumentState.t :=
  ServerDocumentState.receiveOperation scenarioA_1
    (docop "client2" 0 [del 0 1]).

(** Scenario C: a document that has accepted 130 operations, each based
    on the version before it. *)
Definition scenarioC_130 : ServerDocumentState.t :=
  (ServerDocumentState.receiveAll (ServerDocumentState.new [] 0)
     (map (fun v => docop "client1" v [ins 0 "a"]) (seqZ 0 130))).2.
Definition scenarioC_stale : DocumentOperation.t :=
  docop "client2" 5 [ins 0 "b"].

(** A document "xy" on which client 1 has inserted "a" at position 0
    [n] times, each insert based on the version before it. *)
Definition inserts_at_0 (n : Z) : list DocumentOperation.t :=
  map (fun v => docop "client1" v [ins 0 "a"]) (seqZ 0 n).
Definition after_inserts (n : Z) : ServerDocumentState.t :=
  (ServerDocumentState.receiveAll (ServerDocumentState.new (str "xy") 0)
     (inserts_at_0 n)).2.
(** Every canonical operation accepted on the way, the evicted ones too. *)
Definition log_of_inserts (n : Z) : list DocumentOperation.t :=
  canonical
    (ServerDocumentState.receiveAll (ServerDocumentState.new (str "xy") 0)
       (inserts_at_0 n)).1.
(** Client 2, still at version 0, inserts "b" between "x" and "y". *)
Definition insert_between : DocumentOperation.t :=
  docop "client2" 0 [ins 1 "b"].

(** Scenario B: two overlapping deletes on a 10-character buffer, both
    based on version 0, accepted one after the other. *)
Definition scenarioB : list (option ServerDocumentState.result) * ServerDocumentState.t :=
  ServerDocumentState.receiveAll
    (ServerDocumentState.new (str "0123456789") 0)
    [docop "client1" 0 [del 0 5]; docop "client2" 0 [del 2 5]].

(** *** Convergence of two concurrent operations *)

(** The two orders of applying [opA] and [opB] to [content], each second
    operation transformed against the first, give the same string. *)
Definition converge (content : jsstring) (opA opB : TextOperation.t) : Prop :=
  applyOperation (applyOperation content opA) (transformOperation opB opA)
  = applyOperation (applyOperation content opB) (transformOperation opA opB).

(** An operation a client can issue against [content]: the position and
    the length are not negative and an insert lies within the content.
    A delete may reach beyond the end. *)
Definition issued_against (content : jsstring) (op : TextOperation.t) : Prop :=
  match TextOperation.type op with
  | insert => 0 <= TextOperation.position op <= len content
  | delete => 0 <= TextOperation.position op /\ 0 <= TextOperation.length_or_0 op
  | retain | unrecognized _ => True
  end.

(** Two inserts at the same position whose texts do not commute. *)
Definition insert_tie (opA opB : TextOperation.t) : Prop :=
  TextOperation.type opA = insert /\ TextOperation.type opB = insert
  /\ TextOperation.position opA = TextOperation.position opB
  /\ TextOperation.text_or_empty opA ++ TextOperation.text_or_empty opB
     <> TextOperation.text_or_empty opB ++ TextOperation.text_or_empty opA.

(** An insert of some text strictly inside the range of a delete. *)
Definition insert_inside_delete (opI opD : TextOperation.t) : Prop :=
  TextOperation.type opI = insert /\ TextOperation.type opD = delete
  /\ TextOperation.position opD < TextOperation.position opI < range_end opD
  /\ TextOperation.text_or_empty opI <> [].

(** *** Concrete servers: one document, one participant left *)

Definition alice : UserPresence.t :=
  UserPresence.mk "alice" "Alice" "#f87171" None None 0.


Definition socket_server_state : SocketServer.DocState :=
  SocketServer.mkDocState "doc1" "Untitled" "javascript" (str "hello") 3
                          {[ "socket1" ]} 0.



(** The document has a row in the store. *)
Definition socket_server_one_left : SocketServer.t :=
  SocketServer.mk {[ "doc1" := socket_server_state ]}
                  {[ "doc1" := [("socket1", alice)] ]}
                  {[ "doc1" := SocketServer.mkRow (str "hell") 2 0 ]} [].


(** *** Further notions about single operations *)

(** An operation that lies inside [content]: as [issued_against], and a
    delete does not reach beyond the end. *)
Definition in_bounds (content : jsstring) (op : TextOperation.t) : Prop :=
  match TextOperation.type op with
  | insert => 0 <= TextOperation.position op <= len content
  | delete =>
      0 <= TextOperation.position op /\ 0 <= TextOperation.length_or_0 op
      /\ range_end op <= len content
  | retain | unrecognized _ => True
  end.

(** An operation that leaves every content as it is: an insert of no
    text, a delete of no length, a retain, an unrecognized kind. *)
Definition changes_nothing (op : TextOperation.t) : Prop :=
  match TextOperation.type op with
  | insert => TextOperation.text_or_empty op = []
  | delete => TextOperation.length_or_0 op = 0
  | retain | unrecognized _ => True
  end.

(** *** Further notions about the sequencer *)

(** The versions of the history are consecutive and end at the current
    version. *)
Definition history_versions_end_at_version (this : ServerDocumentState.t) : Prop :=
  map DocumentOperation.version (ServerDocumentState.history this)
  = seqZ (ServerDocumentState.version this
          - len (ServerDocumentState.history this) + 1)
         (len (ServerDocumentState.history this)).

(** ** The other handlers of [server.ts] *)

(** The events of [ServerToClientEvents] with their payloads. *)
Module Message.
Inductive t : Type :=
  | document_state (id title language : string) (content : jsstring) (version : Z)
  | document_operation (op : DocumentOperation.t)
  | document_ack (version : Z) (opId : string)
  | document_error (message code : string)
  | presence_update (users : list UserPresence.t)
  | presence_joined (user : UserPresence.t)
  | presence_left (userId : string)
  | cursor_update (userId : string) (cursor : option CursorPosition.t)
                  (selection : option SelectionRange.t)
  | save_status (status : string) (version : Z).
End Message.

(** Where a handler sends a message: [socket.emit] to the sender,
    [socket.to(room).emit] to the others of the room,
    [io.to(room).emit] to everyone in the room. *)
Inductive Outgoing : Type :=
  | to_sender (m : Message.t)
  | to_others (room : string) (m : Message.t)
  | to_all (room : string) (m : Message.t).

(** [room.has(key)] *)
Definition room_has (room : Room) (key : string) : bool :=
  existsb (fun kv => String.eqb kv.1 key) room.

(** [room.set(key, value)]: an existing key keeps its place. *)
Fixpoint room_set (room : Room) (key : string) (value : UserPresence.t) : Room :=
  match room with
  | [] => [(key, value)]
  | (k, v) :: rest =>
      if String.eqb k key then (k, value) :: rest
      else (k, v) :: room_set rest key value
  end.

(** The entry of [key], a shared object, updated in place by [f]. *)
Definition room_update (room : Room) (key : string)
    (f : UserPresence.t -> UserPresence.t) : Room :=
  map (fun kv => if String.eqb kv.1 key then (kv.1, f kv.2) else kv) room.

(** A string variable that passes [if (x)]: neither [null] nor empty. *)
Definition truthy (x : option string) : option string :=
  match x with
  | Some (String a s) => Some (String a s)
  | _ => None
  end.

(** The variables [currentDocId] and [currentUserId] of one connection. *)
Module Connection.
Record t : Type := mk {
  currentDocId : option string;
  currentUserId : option string;
}.
End Connection.

(** How the request of [document:save] to the document API ends. *)
Inductive FetchOutcome : Type := fetch_ok | fetch_not_ok | fetch_threw.

Module ServerHandlers.
(** The handlers return the server, the connection where they assign its
    variables, and the messages they emit, in order. *)

(** [socket.on("document:join", ...)] *)
Definition join (now : Z) (w : Server.t) (documentId userId name color : string)
  : Server.t * Connection.t * list Outgoing :=
  let room0 := default [] (Server.roomUsers w !! documentId) in
  let presence := UserPresence.mk userId name color None None now in
  let room := room_set room0 userId presence in
  let documentStates' :=
    match Server.documentStates w !! documentId with
    | Some _ => Server.documentStates w
    | None => <[documentId := ServerDocumentState.new [] 0]> (Server.documentStates w)
    end in
  let docState :=
    match Server.documentStates w !! documentId with
    | Some docState => docState
    | None => ServerDocumentState.new [] 0
    end in
  (Server.mk documentStates' (<[documentId := room]> (Server.roomUsers w))
             (Server.saveRequests w) (Server.emitted w),
   Connection.mk (Some documentId) (Some userId),
   [to_others ("doc:" +:+ documentId) (Message.presence_joined presence);
    to_sender (Message.presence_update (room_values room));
    to_sender (Message.document_state documentId "" "javascript"
                 (ServerDocumentState.content docState)
                 (ServerDocumentState.version docState))]).

(** [user.lastActive = Date.now()] *)
Definition touch (now : Z) (user : UserPresence.t) : UserPresence.t :=
  UserPresence.mk (UserPresence.userId user) (UserPresence.name user)
                  (UserPresence.color user) (UserPresence.cursor user)
                  (UserPresence.selection user) now.

(** [socket.on("document:operation", ...)] *)
Definition operation (now : Z) (w : Server.t) (conn : Connection.t)
    (op : DocumentOperation.t) : Server.t * list Outgoing :=
  match truthy (Connection.currentDocId conn) with
  | None => (w, [])
  | Some currentDocId =>
      match Server.documentStates w !! currentDocId with
      | None => (w, [])
      | Some docState =>
          match ServerDocumentState.receiveOperation docState op with
          | (None, docState') =>
              (Server.mk (<[currentDocId := docState']> (Server.documentStates w))
                         (Server.roomUsers w) (Server.saveRequests w)
                         (Server.emitted w),
               [to_sender (Message.document_error "failed to apply operation"
                                                  "OP_FAILED")])
          | (Some result, docState') =>
              let roomUsers' :=
                match truthy (Connection.currentUserId conn),
                      Server.roomUsers w !! currentDocId with
                | Some currentUserId, Some room =>
                    if room_has room currentUserId then
                      <[currentDocId := room_update room currentUserId (touch now)]>
                        (Server.roomUsers w)
                    else Server.roomUsers w
                | _, _ => Server.roomUsers w
                end in
              (Server.mk (<[currentDocId := docState']> (Server.documentStates w))
                         roomUsers' (Server.saveRequests w) (Server.emitted w),
               [to_sender (Message.document_ack
                             (ServerDocumentState.newVersion result)
                             (DocumentOperation.id op));
                to_others ("doc:" +:+ currentDocId)
                  (Message.document_operation
                     (ServerDocumentState.transformed result))])
          end
      end
  end.

(** [user.cursor = cursor; user.selection = selection; user.lastActive = now] *)
Definition point (now : Z) (cursor : option CursorPosition.t)
    (selection : option SelectionRange.t) (user : UserPresence.t)
  : UserPresence.t :=
  UserPresence.mk (UserPresence.userId user) (UserPresence.name user)
                  (UserPresence.color user) cursor selection now.

(** [socket.on("cursor:update", ...)] *)
Definition cursor_update (now : Z) (w : Server.t) (conn : Connection.t)
    (documentId : string) (cursor : option CursorPosition.t)
    (selection : option SelectionRange.t) : Server.t * list Outgoing :=
  match truthy (Connection.currentUserId conn) with
  | None => (w, [])
  | Some currentUserId =>
      let roomUsers' :=
        match Server.roomUsers w !! documentId with
        | Some room =>
            if room_has room currentUserId then
              <[documentId := room_update room currentUserId
                                (point now cursor selection)]>
                (Server.roomUsers w)
            else Server.roomUsers w
        | None => Server.roomUsers w
        end in
      (Server.mk (Server.documentStates w) roomUsers' (Server.saveRequests w)
                 (Server.emitted w),
       [to_others ("doc:" +:+ documentId)
          (Message.cursor_update currentUserId cursor selection)])
  end.

(** [docState.content = content] *)
Definition with_content (docState : ServerDocumentState.t) (content : jsstring)
  : ServerDocumentState.t :=
  ServerDocumentState.mk content (ServerDocumentState.version docState)
    (ServerDocumentState.pendingOps docState)
    (ServerDocumentState.history docState).

(** [socket.on("document:save", ...)], with the request it awaits ending
    in [outcome]. *)
Definition save (w : Server.t) (documentId : string) (content : jsstring)
    (version : Z) (outcome : FetchOutcome) : Server.t * list Outgoing :=
  let documentStates' :=
    match Server.documentStates w !! documentId with
    | Some docState =>
        <[documentId := with_content docState content]> (Server.documentStates w)
    | None => Server.documentStates w
    end in
  (Server.mk documentStates' (Server.roomUsers w)
             (Server.saveRequests w
              ++ [Server.Build_SaveRequest documentId content version])
             (Server.emitted w),
   match outcome with
   | fetch_ok => [to_all ("doc:" +:+ documentId) (Message.save_status "saved" version)]
   | fetch_not_ok | fetch_threw => [to_sender (Message.save_status "error" version)]
   end).

(** [socket.on("document:leave", ...)] *)
Definition leave (w : Server.t) (conn : Connection.t) (documentId : string)
  : Server.t * Connection.t :=
  (Server.handleLeave w documentId (Connection.currentUserId conn),
   Connection.mk None None).

(** [socket.on("disconnect", ...)] *)
Definition disconnect (w : Server.t) (conn : Connection.t) : Server.t :=
  match truthy (Connection.currentDocId conn),
        truthy (Connection.currentUserId conn) with
  | Some currentDocId, Some currentUserId =>
      Server.handleLeave w currentDocId (Some currentUserId)
  | _, _ => w
  end.

(** [__initDocState(documentId, content, version)] *)
Definition initDocState (w : Server.t) (documentId : string)
    (content : jsstring) (version : Z) : Server.t :=
  match Server.documentStates w !! documentId with
  | None =>
      Server.mk (<[documentId := ServerDocumentState.new content version]>
                   (Server.documentStates w))
                (Server.roomUsers w) (Server.saveRequests w) (Server.emitted w)
  | Some state =>
      if (ServerDocumentState.version state =? 0) && (version >? 0) then
        Server.mk (<[documentId :=
                       ServerDocumentState.mk content version
                         (ServerDocumentState.pendingOps state)
                         (ServerDocumentState.history state)]>
                     (Server.documentStates w))
                  (Server.roomUsers w) (Server.saveRequests w) (Server.emitted w)
      else w
  end.
End ServerHandlers.

(** Who is in a room: the keys with the identity of each entry. *)
Definition participants (room : Room) : list (string * string * string * string) :=
  map (fun kv => (kv.1, UserPresence.userId kv.2, UserPresence.name kv.2,
                  UserPresence.color kv.2)) room.

(** The same rooms with the same participants, in the same order. *)
Definition same_participants (w w' : Server.t) : Prop :=
  forall documentId,
    participants <$> Server.roomUsers w' !! documentId
    = participants <$> Server.roomUsers w !! documentId.

(** A server with one open document and its author in the room. *)
Definition server_open : Server.t :=
  Server.mk {[ "doc1" := scenarioA_1 ]} {[ "doc1" := [("client1", alice)] ]} [] [].

Definition connection_client1 : Connection.t :=
  Connection.mk (Some "doc1") (Some "client1").

(** ** The other handlers of the standalone socket server *)

Module SocketServerHandlers.
Section handlers.
(** [createDocumentState] of the collaboration module, whose definition
    is not part of the sources at hand: the content and the version of
    the state it makes from a content and a version. *)
Variable createDocumentState : jsstring -> Z -> jsstring * Z.
(** The [title] and [language] columns of the row of a document, which
    this server reads and never writes. *)
Variable title_language : string -> string * string.

(** The part of [document:join] that makes the state of a document that
    has none in memory: from its row when there is one, otherwise a new
    one. The query is run to completion before any other event. *)
Definition initState (now : Z) (w : SocketServer.t) (documentId : string)
  : gmap string SocketServer.DocState :=
  match SocketServer.documentStates w !! documentId with
  | Some _ => SocketServer.documentStates w
  | None =>
      match SocketServer.db w !! documentId with
      | Some doc =>
          <[documentId :=
              SocketServer.mkDocState documentId
                (title_language documentId).1 (title_language documentId).2
                (SocketServer.row_content doc) (SocketServer.row_version doc)
                ∅ now]>
            (SocketServer.documentStates w)
      | None =>
          <[documentId :=
              SocketServer.mkDocState documentId "Untitled" "javascript"
                (createDocumentState [] 0).1 (createDocumentState [] 0).2
                ∅ now]>
            (SocketServer.documentStates w)
      end
  end.

(** [state.sockets.add(socket.id)] *)
Definition add_socket (socketId : string) (state : SocketServer.DocState)
  : SocketServer.DocState :=
  SocketServer.mkDocState (SocketServer.id state) (SocketServer.title state)
    (SocketServer.language state) (SocketServer.content state)
    (SocketServer.version state) ({[socketId]} ∪ SocketServer.sockets state)
    (SocketServer.lastSave state).

(** [socket.on("document:join", ...)] on the socket [socketId]. *)
Definition join (now : Z) (w : SocketServer.t)
    (socketId documentId userId name color : string)
  : SocketServer.t * list Outgoing :=
  let documentStates1 := initState now w documentId in
  match documentStates1 !! documentId with
  | Some state0 =>
      let state := add_socket socketId state0 in
      let presence := UserPresence.mk userId name color None None now in
      let room :=
        room_set (default [] (SocketServer.roomUsers w !! documentId))
                 socketId presence in
      (SocketServer.mk (<[documentId := state]> documentStates1)
                       (<[documentId := room]> (SocketServer.roomUsers w))
                       (SocketServer.db w) (SocketServer.emitted w),
       [to_sender (Message.document_state documentId "Untitled" "javascript"
                     (SocketServer.content state) (SocketServer.version state));
        to_all documentId (Message.presence_joined presence);
        to_all documentId (Message.presence_update (room_values room))])
  | None => (w, [])   (* not reached: [initState] has made the state *)
  end.
End handlers.

(** [state.content = content; state.version = version] *)
Definition with_content_version (state : SocketServer.DocState)
    (content : jsstring) (version : Z) : SocketServer.DocState :=
  SocketServer.mkDocState (SocketServer.id state) (SocketServer.title state)
    (SocketServer.language state) content version
    (SocketServer.sockets state) (SocketServer.lastSave state).

(** [op.id || "server-generated-id"] *)
Definition id_or_generated (op : DocumentOperation.t) : string :=
  match DocumentOperation.id op with
  | EmptyString => "server-generated-id"
  | id => id
  end.

(** [socket.on("document:operation", ...)]: the operation is applied as
    it is to the document it names. [applyOperations] does not throw, so
    the [catch] is never entered. The save that is started when the last
    one is more than 2000 ms old is run to completion, and [Date.now()]
    is one instant [now] throughout. *)
Definition operation (now : Z) (w : SocketServer.t) (op : DocumentOperation.t)
  : SocketServer.t * list Outgoing :=
  let documentId := DocumentOperation.documentId op in
  match SocketServer.documentStates w !! documentId with
  | None => (w, [])
  | Some state =>
      let state1 :=
        with_content_version state
          (applyOperations (SocketServer.content state)
             (DocumentOperation.with_operations op (DocumentOperation.operations op)))
          (SocketServer.version state + 1) in
      let newOp :=
        DocumentOperation.mk (id_or_generated op) documentId
          (DocumentOperation.userId op) (SocketServer.version state1)
          (DocumentOperation.operations op) now in
      let '(db', state2) :=
        if now - SocketServer.lastSave state1 >? 2000
        then SocketServer.saveToDb now (SocketServer.db w) documentId state1
        else (SocketServer.db w, state1) in
      (SocketServer.mk (<[documentId := state2]> (SocketServer.documentStates w))
                       (SocketServer.roomUsers w) db' (SocketServer.emitted w),
       [to_others documentId (Message.document_operation newOp);
        to_sender (Message.document_ack (SocketServer.version state1)
                                        "optimistic-ack")])
  end.

(** [socket.on("document:save", ...)]: [update] fails when the document
    has no row. *)
Definition save (now : Z) (w : SocketServer.t) (documentId : string)
    (content : jsstring) (version : Z) : SocketServer.t * list Outgoing :=
  match SocketServer.db w !! documentId with
  | Some _ =>
      let db' := <[documentId := SocketServer.mkRow content version now]>
                   (SocketServer.db w) in
      let documentStates' :=
        match SocketServer.documentStates w !! documentId with
        | Some state =>
            <[documentId :=
                SocketServer.mkDocState (SocketServer.id state)
                  (SocketServer.title state) (SocketServer.language state)
                  content version (SocketServer.sockets state) now]>
              (SocketServer.documentStates w)
        | None => SocketServer.documentStates w
        end in
      (SocketServer.mk documentStates' (SocketServer.roomUsers w) db'
                       (SocketServer.emitted w),
       [to_sender (Message.save_status "saved" version)])
  | None => (w, [to_sender (Message.save_status "error" version)])
  end.
End SocketServerHandlers.


(** ** The client hook [useSocket] *)

Module ClientSocket.
(** What the hook emits to the server. *)
Inductive Sent : Type :=
  | document_join (documentId userId name color : string)
  | document_operation (op : DocumentOperation.t).

(** The state of the hook that operations and presence go through:
    whether the socket is connected, the queue [pendingOps], the list
    [users], and what has been emitted so far. *)
Record t : Type := mk {
  connected : bool;
  pendingOps : list DocumentOperation.t;
  users : list UserPresence.t;
  emitted : list Sent;
}.

Definition initial : t := mk false [] [] [].

(** [socket.on("connect", ...)]: join the room, then flush the queue. *)
Definition on_connect (documentId userId userName userColor : string) (s : t) : t :=
  let joined := emitted s ++ [document_join documentId userId userName userColor] in
  if (0 <? len (pendingOps s)) then
    mk true [] (users s) (joined ++ map document_operation (pendingOps s))
  else
    mk true (pendingOps s) (users s) joined.

(** [socket.on("disconnect", ...)] *)
Definition on_disconnect (s : t) : t :=
  mk false (pendingOps s) (users s) (emitted s).

(** [sendOperation(op)] *)
Definition sendOperation (op : DocumentOperation.t) (s : t) : t :=
  if connected s then
    mk (connected s) (pendingOps s) (users s) (emitted s ++ [document_operation op])
  else
    mk (connected s) (pendingOps s ++ [op]) (users s) (emitted s).

(** [socket.on("presence:joined", ...)] on the list of users. *)
Definition presence_joined (user : UserPresence.t) (prev : list UserPresence.t)
  : list UserPresence.t :=
  List.filter (fun u => negb (String.eqb (UserPresence.userId u)
                                         (UserPresence.userId user))) prev
  ++ [user].

(** [socket.on("presence:left", ...)] *)
Definition presence_left (leftUserId : string) (prev : list UserPresence.t)
  : list UserPresence.t :=
  List.filter (fun u => negb (String.eqb (UserPresence.userId u) leftUserId)) prev.

(** [socket.on("cursor:update", ...)] *)
Definition cursor_update (now : Z) (uid : string)
    (cursor : option CursorPosition.t) (selection : option SelectionRange.t)
    (prev : list UserPresence.t) : list UserPresence.t :=
  map (fun u =>
         if String.eqb (UserPresence.userId u) uid
         then UserPresence.mk (UserPresence.userId u) (UserPresence.name u)
                              (UserPresence.color u) cursor selection now
         else u) prev.

(** What happens to the hook, as far as operations go. *)
Inductive Event : Type :=
  | Connect
  | Disconnect
  | Send (op : DocumentOperation.t).

Section run.
Variables documentId userId userName userColor : string.

Definition step (s : t) (e : Event) : t :=
  match e with
  | Connect => on_connect documentId userId userName userColor s
  | Disconnect => on_disconnect s
  | Send op => sendOperation op s
  end.

Definition run (events : list Event) : t := fold_left step events initial.
End run.

(** The operations among the emitted messages, in order. *)
Definition operations_emitted (s : t) : list DocumentOperation.t :=
  omap (fun m => match m with document_operation op => Some op | _ => None end)
       (emitted s).

(** The operations handed to [sendOperation], in order. *)
Definition operations_sent (events : list Event) : list DocumentOperation.t :=
  omap (fun e => match e with Send op => Some op | _ => None end) events.
End ClientSocket.
(** * Properties *)

(** ** [slice] on the ranges the engine uses *)

Section slice_facts.
Context {A : Type}.
Implicit Types (s : list A) (p q : Z).

Lemma len_nonneg s : 0 <= len s.
Proof. unfold len. lia. Qed.

Lemma rel_index_nonneg n p : 0 <= p -> rel_index n p = Z.min p n.
Proof. intros Hp. unfold rel_index. destruct (Z.ltb_spec p 0); [lia|done]. Qed.

Lemma rel_index_neg n p : p < 0 -> rel_index n p = Z.max (n + p) 0.
Proof. intros Hp. unfold rel_index. destruct (Z.ltb_spec p 0); [done|lia]. Qed.

(** [s.slice(0, p)] for [p >= 0] is the prefix of [p] elements. *)
Lemma slice_0_nonneg s p : 0 <= p -> slice s 0 p = take (Z.to_nat p) s.
Proof.
  intros Hp. pose proof (len_nonneg s) as Hn. unfold slice.
  rewrite !rel_index_nonneg by lia.
  replace (Z.to_nat (Z.min 0 (len s))) with 0%nat by lia. rewrite drop_0.
  unfold len in *.
  destruct (Z.le_gt_cases p (Z.of_nat (length s))).
  - f_equal. lia.
  - rewrite !take_ge by lia. done.
Qed.

(** [s.slice(0, p)] for [p < 0] drops the last [-p] elements. *)
Lemma slice_0_neg s p :
  p < 0 -> slice s 0 p = take (Z.to_nat (len s + p)) s.
Proof.
  intros Hp. pose proof (len_nonneg s) as Hn. unfold slice.
  rewrite (rel_index_nonneg _ 0), (rel_index_neg _ p) by lia.
  replace (Z.to_nat (Z.min 0 (len s))) with 0%nat by lia. rewrite drop_0.
  replace (Z.to_nat (Z.max (len s + p) 0 - Z.min 0 (len s)))
    with (Z.to_nat (len s + p)) by lia.
  done.
Qed.

(** [s.slice(p)] for [p >= 0] drops [p] elements. *)
Lemma slice_from_nonneg s p : 0 <= p -> slice_from s p = drop (Z.to_nat p) s.
Proof.
  intros Hp. unfold slice_from. rewrite rel_index_nonneg by lia.
  unfold len.
  destruct (Z.le_gt_cases p (Z.of_nat (length s))).
  - f_equal. lia.
  - rewrite !drop_ge by lia. done.
Qed.

(** [s.slice(p)] for [p < 0] keeps the last [-p] elements. *)
Lemma slice_from_neg s p :
  p < 0 -> slice_from s p = drop (Z.to_nat (len s + p)) s.
Proof.
  intros Hp. unfold slice_from. rewrite rel_index_neg by lia.
  replace (Z.to_nat (Z.max (len s + p) 0)) with (Z.to_nat (len s + p)) by lia.
  done.
Qed.
End slice_facts.

(** ** What [applyOperation] computes *)

(** An insert splices its text at the clamped position, whatever the
    position is. *)
Lemma applyOperation_insert c p t l :
  applyOperation c (TextOperation.mk insert p t l)
  = splice (Z.to_nat (clamp (len c) p)) (default [] t) c.
Proof.
  unfold applyOperation, splice, clamp, TextOperation.text_or_empty. simpl.
  pose proof (len_nonneg c) as Hn.
  destruct (Z.ltb_spec p 0) as [Hneg|Hpos]; simpl.
  - rewrite slice_0_nonneg, slice_from_nonneg by lia. done.
  - destruct (Z.gtb_spec p (len c)) as [Hbig|Hin].
    + rewrite slice_0_nonneg, slice_from_nonneg by lia. done.
    + rewrite slice_0_nonneg, slice_from_nonneg by lia.
      replace (Z.max 0 (Z.min p (len c))) with p by lia. done.
Qed.

(** A delete whose position and length are not negative removes the
    range [[p, min (p + l) (len c))]; a range that starts beyond the end
    is empty. *)
Lemma applyOperation_delete c p t l :
  0 <= p -> 0 <= default 0 l ->
  applyOperation c (TextOperation.mk delete p t l)
  = cut (Z.to_nat p) (Z.to_nat (default 0 l)) c.
Proof.
  intros Hp Hl.
  unfold applyOperation, cut, TextOperation.length_or_0. simpl.
  pose proof (len_nonneg c) as Hn.
  rewrite slice_0_nonneg, slice_from_nonneg by lia. f_equal.
  unfold len in *.
  destruct (Z.le_gt_cases (p + default 0 l) (Z.of_nat (length c))).
  - f_equal. lia.
  - rewrite !drop_ge by lia. done.
Qed.

(** ** The sequencer *)

Section sequencer.
Import ServerDocumentState.
Implicit Types (this : ServerDocumentState.t) (docOp : DocumentOperation.t).

Lemma accept_eq this docOp :
  accept this docOp
  = (Some (mk_result
             (DocumentOperation.with_version docOp (version this + 1))
             (applyOperations (content this) docOp)
             (version this + 1)),
     mk (applyOperations (content this) docOp) (version this + 1)
        (pendingOps this)
        (last_n 100 (history this
                     ++ [DocumentOperation.with_version docOp (version this + 1)]))).
Proof.
  unfold accept. do 2 f_equal.
  set (pushed := history this ++ _).
  destruct (Z.gtb_spec (len pushed) 100) as [Hlong|Hshort]; unfold last_n.
  - rewrite slice_from_neg by lia. f_equal. unfold len in *. lia.
  - unfold len in *.
    replace (length pushed - 100)%nat with 0%nat by lia. done.
Qed.

(** Every call either rejects and leaves the instance as it was, or
    accepts some rewriting of the operation. *)
Lemma receiveOperation_cases this docOp :
  (version this < DocumentOperation.version docOp
   /\ receiveOperation this docOp = (None, this))
  \/ (DocumentOperation.version docOp <= version this
      /\ exists ops, receiveOperation this docOp
                     = accept this (DocumentOperation.with_operations docOp ops)).
Proof.
  unfold receiveOperation.
  destruct (Z.ltb_spec (DocumentOperation.version docOp) (version this)).
  - right. split; [lia|]. eauto.
  - destruct (Z.gtb_spec (DocumentOperation.version docOp) (version this)).
    + left. split; [lia|done].
    + right. split; [lia|]. exists (DocumentOperation.operations docOp).
      by destruct docOp.
Qed.

(** The loop over the missed entries transforms each incoming text
    operation against all their text operations, oldest first. *)
Lemma transformDocumentOperation_batch opsA opsB :
  transformDocumentOperation opsA opsB = transformBatch opsA opsB.
Proof.
  unfold transformDocumentOperation, transformBatch.
  revert opsA. induction opsB as [|b opsB IH]; intros opsA; simpl.
  - by rewrite map_id.
  - rewrite IH, map_map. done.
Qed.

Lemma transformBatch_app opsA opsB opsC :
  transformBatch (transformBatch opsA opsB) opsC = transformBatch opsA (opsB ++ opsC).
Proof.
  unfold transformBatch. rewrite map_map. apply map_ext. intros a.
  by rewrite fold_left_app.
Qed.

Lemma fold_transform_missed (hs : list DocumentOperation.t) ops :
  fold_left
    (fun ops m => transformDocumentOperation ops (DocumentOperation.operations m))
    hs ops
  = transformBatch ops (text_operations hs).
Proof.
  unfold text_operations.
  revert ops. induction hs as [|h hs IH]; intros ops; simpl.
  - unfold transformBatch. by rewrite map_id.
  - rewrite IH, transformDocumentOperation_batch. apply transformBatch_app.
Qed.

(** An operation based on an older version is accepted after being
    transformed against the missed entries. *)
Lemma receiveOperation_older this docOp :
  DocumentOperation.version docOp < version this ->
  receiveOperation this docOp
  = accept this
      (DocumentOperation.with_operations docOp
         (transformBatch (DocumentOperation.operations docOp)
                         (text_operations (missedOps this docOp)))).
Proof.
  intros Hlt. unfold receiveOperation.
  destruct (Z.ltb_spec (DocumentOperation.version docOp) (version this)); [|lia].
  by rewrite fold_transform_missed.
Qed.

(** C4. An operation whose base version is greater than the current
    version is rejected: [receiveOperation] returns [null] and the
    instance (content, version, history) is exactly as before. *)
Theorem future_version_rejected this docOp :
  version this < DocumentOperation.version docOp ->
  receiveOperation this docOp = (None, this).
Proof.
  intros Hgt. destruct (receiveOperation_cases this docOp) as [[_ ->]|[Hle _]];
    [done|lia].
Qed.

Lemma future_version_rejected_witness :
  receiveOperation scenarioA_0 (docop "client1" 3 [ins 0 "Z"])
  = (None, scenarioA_0).
Proof. apply future_version_rejected. reflexivity. Defined.

(** One call changes the version by +1 when it accepts and by nothing
    when it rejects. *)
Lemma receiveOperation_version this docOp :
  match receiveOperation this docOp with
  | (Some r, this') =>
      newVersion r = version this + 1
      /\ DocumentOperation.version (transformed r) = version this + 1
      /\ version this' = version this + 1
  | (None, this') => this' = this
  end.
Proof.
  destruct (receiveOperation_cases this docOp) as [[_ ->]|[_ [ops ->]]]; [done|].
  rewrite accept_eq. done.
Qed.

(** C5. Along any sequence of operations handed to one instance, the
    accepted operations are given the versions [v0+1, v0+2, ...] in order,
    where [v0] is the version the instance started from; a rejected
    operation leaves the version as it is, so the version changes by
    exactly +1 per accepted operation and never otherwise. *)
Theorem version_monotonic this docOps :
  (map newVersion (accepted (receiveAll this docOps).1)
   = seqZ (version this + 1) (len (accepted (receiveAll this docOps).1)))
  /\ (map DocumentOperation.version (canonical (receiveAll this docOps).1)
      = seqZ (version this + 1) (len (accepted (receiveAll this docOps).1)))
  /\ version (receiveAll this docOps).2
     = version this + len (accepted (receiveAll this docOps).1)
  /\ (forall docOp,
        match receiveOperation this docOp with
        | (Some r, this') =>
            newVersion r = version this + 1 /\ version this' = version this + 1
        | (None, this') => version this' = version this
        end).
Proof.
  split_and!.
  - revert this. induction docOps as [|docOp rest IH]; intros this; [done|].
    simpl. pose proof (receiveOperation_version this docOp) as Hstep.
    destruct (receiveOperation this docOp) as [[r|] this'].
    + destruct Hstep as (Hr & _ & Hv).
      specialize (IH this'). destruct (receiveAll this' rest) as [rs final].
      simpl in *. unfold accepted in *. simpl. rewrite IH, Hr, Hv.
      unfold len. simpl length.
      rewrite (seqZ_cons (version this + 1)) by lia. do 2 f_equal; lia.
    + subst this'. specialize (IH this).
      destruct (receiveAll this rest) as [rs final]. done.
  - revert this. induction docOps as [|docOp rest IH]; intros this; [done|].
    simpl. pose proof (receiveOperation_version this docOp) as Hstep.
    destruct (receiveOperation this docOp) as [[r|] this'].
    + destruct Hstep as (_ & Hr & Hv).
      specialize (IH this'). destruct (receiveAll this' rest) as [rs final].
      simpl in *. unfold canonical, accepted in *. simpl. rewrite IH, Hr, Hv.
      unfold len. simpl length.
      rewrite (seqZ_cons (version this + 1)) by lia. do 2 f_equal; lia.
    + subst this'. specialize (IH this).
      destruct (receiveAll this rest) as [rs final]. done.
  - revert this. induction docOps as [|docOp rest IH]; intros this.
    { simpl. unfold len. simpl. lia. }
    simpl. pose proof (receiveOperation_version this docOp) as Hstep.
    destruct (receiveOperation this docOp) as [[r|] this'].
    + destruct Hstep as (_ & _ & Hv).
      specialize (IH this'). destruct (receiveAll this' rest) as [rs final].
      simpl in *. rewrite IH, Hv. unfold accepted, len. simpl. lia.
    + subst this'. specialize (IH this).
      destruct (receiveAll this rest) as [rs final]. done.
  - intros docOp. pose proof (receiveOperation_version this docOp) as Hstep.
    destruct (receiveOperation this docOp) as [[r|] this'].
    + tauto.
    + by subst.
Qed.

Lemma last_n_app_last_n {A} (n : nat) (l k : list A) :
  last_n n (last_n n l ++ k) = last_n n (l ++ k).
Proof.
  unfold last_n. rewrite !length_app, length_drop.
  destruct (decide (length l <= n)%nat) as [Hshort|Hlong].
  - replace (length l - n)%nat with 0%nat by lia. rewrite drop_0.
    f_equal. lia.
  - set (d := (length l - n)%nat).
    transitivity (drop (d + (length l - d + length k - n)) (take d l ++ drop d l ++ k)).
    + rewrite drop_app_add'; [done|]. rewrite length_take. lia.
    + rewrite app_assoc, take_drop. f_equal. lia.
Qed.

Lemma length_last_n {A} (n : nat) (l : list A) :
  length (last_n n l) = (length l `min` n)%nat.
Proof. unfold last_n. rewrite length_drop. lia. Qed.

Lemma last_n_short {A} (n : nat) (l : list A) :
  (length l <= n)%nat -> last_n n l = l.
Proof.
  intros Hshort. unfold last_n.
  replace (length l - n)%nat with 0%nat by lia. done.
Qed.

Lemma receiveAll_history this docOps :
  (length (history this) <= 100)%nat ->
  history (receiveAll this docOps).2
  = last_n 100 (history this ++ canonical (receiveAll this docOps).1).
Proof.
  revert this. induction docOps as [|docOp rest IH]; intros this Hbound.
  { simpl. unfold canonical, accepted. simpl. rewrite app_nil_r.
    by rewrite last_n_short. }
  simpl.
  destruct (receiveOperation_cases this docOp) as [[_ ->]|[_ [ops ->]]].
  - specialize (IH this Hbound). destruct (receiveAll this rest) as [rs final].
    done.
  - rewrite accept_eq.
    set (this' := mk _ _ _ _). specialize (IH this').
    destruct (receiveAll this' rest) as [rs final]. simpl in *.
    rewrite IH.
    2:{ rewrite length_last_n. lia. }
    unfold canonical, accepted. simpl.
    rewrite last_n_app_last_n, <-app_assoc. done.
Qed.

(** C6. Starting from a fresh instance, the history is always the last
    100 canonical operations accepted so far, in order of acceptance: all
    of them while there are at most 100, exactly 100 afterwards, the
    oldest being the ones dropped. *)
Theorem bounded_history content v docOps :
  history (receiveAll (new content v) docOps).2
  = last_n 100 (canonical (receiveAll (new content v) docOps).1)
  /\ length (history (receiveAll (new content v) docOps).2)
     = (length (accepted (receiveAll (new content v) docOps).1) `min` 100)%nat
  /\ (if decide (length (accepted (receiveAll (new content v) docOps).1) <= 100)%nat
      then history (receiveAll (new content v) docOps).2
           = canonical (receiveAll (new content v) docOps).1
      else length (history (receiveAll (new content v) docOps).2) = 100%nat).
Proof.
  pose proof (receiveAll_history (new content v) docOps) as Hh.
  simpl in Hh. specialize (Hh ltac:(lia)).
  assert (length (canonical (receiveAll (new content v) docOps).1)
          = length (accepted (receiveAll (new content v) docOps).1)) as Hlen.
  { unfold canonical. by rewrite length_map. }
  split_and!.
  - done.
  - rewrite Hh, length_last_n. lia.
  - case_decide.
    + rewrite Hh. apply last_n_short. lia.
    + rewrite Hh, length_last_n. lia.
Qed.

Lemma missedOps_filter this docOp :
  missedOps this docOp = filter (missed docOp) (history this).
Proof.
  unfold missedOps. induction (history this) as [|h hs IH]; [done|].
  simpl. rewrite filter_cons, IH.
  destruct (decide (missed docOp h)) as [[Hv Hu]|Hno].
  - apply Z.geb_le in Hv. apply String.eqb_neq in Hu. by rewrite Hv, Hu.
  - destruct (Z.geb_spec (DocumentOperation.version h)
                (DocumentOperation.version docOp)) as [Hv|Hv]; [|done].
    destruct (String.eqb_spec (DocumentOperation.userId h)
                (DocumentOperation.userId docOp)) as [Hu|Hu]; [done|].
    destruct Hno. split; [lia|done].
Qed.

(** What a call with an older base version returns and leaves behind. *)
Lemma receiveOperation_older_result this docOp :
  DocumentOperation.version docOp < version this ->
  let ops' := transformBatch (DocumentOperation.operations docOp)
                (text_operations (filter (missed docOp) (history this))) in
  (receiveOperation this docOp).1 = Some (accepted_as this docOp ops')
  /\ content (receiveOperation this docOp).2
     = fold_left applyOperation ops' (content this)
  /\ version (receiveOperation this docOp).2 = version this + 1.
Proof.
  intros Hlt. simpl.
  rewrite receiveOperation_older, accept_eq, missedOps_filter by done. done.
Qed.

(** C3. An operation based on an older version is transformed against
    exactly the history entries with [version >= baseVersion] authored by
    a different user, oldest first, and the result is applied. In
    scenario A the delete of client 2 is left as it is by the insert of
    client 1, and the content goes from "abc" through "aXbc" (version 1)
    to "Xbc" (version 2). *)
Theorem older_operation_transformed :
  (forall this docOp,
     DocumentOperation.version docOp < version this ->
     let ops' := transformBatch (DocumentOperation.operations docOp)
                   (text_operations (filter (missed docOp) (history this))) in
     (receiveOperation this docOp).1 = Some (accepted_as this docOp ops')
     /\ content (receiveOperation this docOp).2
        = fold_left applyOperation ops' (content this)
     /\ version (receiveOperation this docOp).2 = version this + 1)
  /\ (content scenarioA_1 = str "aXbc"
      /\ version scenarioA_1 = 1
      /\ transformOperation (del 0 1) (ins 1 "X") = del 0 1
      /\ scenarioA_2.1
         = Some (mk_result (DocumentOperation.mk "op" "doc" "client2" 2 [del 0 1] 0)
                           (str "Xbc") 2)
      /\ content scenarioA_2.2 = str "Xbc"
      /\ version scenarioA_2.2 = 2).
Proof.
  split.
  - intros this docOp Hlt. by apply receiveOperation_older_result.
  - by vm_compute.
Qed.

Lemma older_operation_transformed_witness :
  (receiveOperation scenarioA_1 (docop "client2" 0 [del 0 1])).1
  = Some (accepted_as scenarioA_1 (docop "client2" 0 [del 0 1])
            (transformBatch [del 0 1]
               (text_operations
                  (filter (missed (docop "client2" 0 [del 0 1]))
                          (history scenarioA_1))))).
Proof.
  apply (proj1 older_operation_transformed scenarioA_1
           (docop "client2" 0 [del 0 1])).
  reflexivity.
Defined.

Ltac stale_by_computation :=
  split;
  [ by vm_compute
  | apply Forall_fold_right; vm_compute; repeat split; reflexivity ].

(** C2 fails in the code. [receiveOperation] has no check against the
    oldest retained entry: an operation whose base version predates the
    retained history is not rejected, it is transformed against the
    retained entries only and applied. At version 130, with the entries
    of versions 31..130 retained, an operation based on version 5 is
    accepted and the version becomes 131. On "xy", after 101 inserts of
    "a" at position 0, of which the first has been evicted, an insert of
    "b" at position 1 based on version 0 is moved to position 101 and
    lands before the "x"; transformed against all 101 inserts it goes to
    position 102, between "x" and "y", and that is where it lands as long
    as nothing has been evicted (after 100 inserts). *)
Theorem stale_operation_misplaced :
  (version scenarioC_130 = 130
   /\ map DocumentOperation.version (history scenarioC_130) = seqZ 31 100
   /\ DocumentOperation.version scenarioC_stale = 5
   /\ stale_beyond_history scenarioC_130 scenarioC_stale
   /\ (receiveOperation scenarioC_130 scenarioC_stale).1 <> None
   /\ version (receiveOperation scenarioC_130 scenarioC_stale).2 = 131
   /\ content (receiveOperation scenarioC_130 scenarioC_stale).2
      = str "b" ++ content scenarioC_130)
  /\ (version (after_inserts 101) = 101
      /\ content (after_inserts 101) = replicate 101 "a"%char ++ str "xy"
      /\ map DocumentOperation.version (history (after_inserts 101)) = seqZ 2 100
      /\ stale_beyond_history (after_inserts 101) insert_between
      /\ receiveOperation (after_inserts 101) insert_between
         = (Some (mk_result
                    (DocumentOperation.mk "op" "doc" "client2" 102 [ins 101 "b"] 0)
                    (replicate 101 "a"%char ++ str "bxy") 102),
            (receiveOperation (after_inserts 101) insert_between).2)
      /\ content (receiveOperation (after_inserts 101) insert_between).2
         = replicate 101 "a"%char ++ str "bxy"
      /\ version (receiveOperation (after_inserts 101) insert_between).2 = 102)
  /\ (length (log_of_inserts 101) = 101%nat
      /\ transformBatch [ins 1 "b"] (text_operations (log_of_inserts 101))
         = [ins 102 "b"]
      /\ applyOperation (content (after_inserts 101)) (ins 102 "b")
         = replicate 101 "a"%char ++ str "xby")
  /\ (map DocumentOperation.version (history (after_inserts 100)) = seqZ 1 100
      /\ (receiveOperation (after_inserts 100) insert_between).1
         = Some (mk_result
                   (DocumentOperation.mk "op" "doc" "client2" 101 [ins 101 "b"] 0)
                   (replicate 100 "a"%char ++ str "xby") 101)).
Proof.
  split_and!; try (by vm_compute); stale_by_computation.
Qed.

End sequencer.

(** ** Single operations *)

Section single_operations.
Implicit Types (c : jsstring) (p : Z) (t : option jsstring) (l : option Z).

(** C7 fails for a delete at a negative position: the start of the range
    is not clamped, [slice] counts it from the end, and the result is
    longer than the content instead of being the content without a range
    of it. *)
Theorem applyOperation_delete_negative_position :
  applyOperation (str "abc") (del (-1) 1) = str "ababc"
  /\ (length (str "abc") < length (applyOperation (str "abc") (del (-1) 1)))%nat
  /\ applyOperation (str "abc") (ins (-1) "X") = str "Xabc".
Proof. split_and!; [by vm_compute | vm_compute; lia | by vm_compute]. Qed.

(** The part of C7 that holds for a delete: with a position and a length
    that are not negative, the result is the content without the range
    [[min p n, min (p + l) n)]. *)
Lemma applyOperation_delete_range c p t l :
  0 <= p -> 0 <= default 0 l ->
  applyOperation c (TextOperation.mk delete p t l)
  = take (Z.to_nat (Z.min p (len c))) c
    ++ drop (Z.to_nat (Z.min (p + default 0 l) (len c))) c.
Proof.
  intros Hp Hl. rewrite applyOperation_delete by done. unfold cut, len.
  destruct (Z.le_gt_cases p (Z.of_nat (length c))).
  - replace (Z.to_nat (Z.min p (Z.of_nat (length c)))) with (Z.to_nat p) by lia.
    f_equal.
    destruct (Z.le_gt_cases (p + default 0 l) (Z.of_nat (length c))).
    + f_equal. lia.
    + rewrite !drop_ge by lia. done.
  - rewrite !take_ge by lia. rewrite !drop_ge by lia. done.
Qed.

(** The overlapping branch of delete against delete. *)
Lemma transformOperation_delete_delete_overlap pA tA lA pB tB lB :
  overlapping (TextOperation.mk delete pA tA lA)
              (TextOperation.mk delete pB tB lB) ->
  transformOperation (TextOperation.mk delete pA tA lA)
                     (TextOperation.mk delete pB tB lB)
  = let newLen := default 0 lA
                  - overlap_length (TextOperation.mk delete pA tA lA)
                                   (TextOperation.mk delete pB tB lB) in
    if decide (newLen <= 0) then noop
    else TextOperation.mk delete (Z.min pA pB) tA (Some newLen).
Proof.
  intros [HB HA].
  unfold overlap_length, range_end, TextOperation.length_or_0 in *. simpl in *.
  unfold transformOperation, TextOperation.length_or_0. simpl.
  destruct (Z.leb_spec (pA + default 0 lA) pB); [lia|].
  destruct (Z.geb_spec pA (pB + default 0 lB)); [lia|].
  case_decide as Hlen.
  - destruct (Z.leb_spec
                (default 0 lA
                 - (Z.min (pA + default 0 lA) (pB + default 0 lB) - Z.max pA pB)) 0);
      [done|lia].
  - destruct (Z.leb_spec
                (default 0 lA
                 - (Z.min (pA + default 0 lA) (pB + default 0 lB) - Z.max pA pB)) 0);
      [lia|done].
Qed.

(** C8. A delete A transformed against an overlapping delete B loses the
    overlap from its length and starts at [min(posA, posB)]; when nothing
    is left it becomes the no-op. [delete(2,5)] against [delete(0,5)] is
    [delete(0,2)], also when the two go through the sequencer on a
    10-character buffer. *)
Theorem delete_delete_overlap :
  (forall pA tA lA pB tB lB,
     overlapping (TextOperation.mk delete pA tA lA)
                 (TextOperation.mk delete pB tB lB) ->
     transformOperation (TextOperation.mk delete pA tA lA)
                        (TextOperation.mk delete pB tB lB)
     = let newLen := default 0 lA
                     - overlap_length (TextOperation.mk delete pA tA lA)
                                      (TextOperation.mk delete pB tB lB) in
       if decide (newLen <= 0) then noop
       else TextOperation.mk delete (Z.min pA pB) tA (Some newLen))
  /\ overlap_length (del 2 5) (del 0 5) = 3
  /\ transformOperation (del 2 5) (del 0 5) = del 0 2
  /\ canonical scenarioB.1
     = [DocumentOperation.mk "op" "doc" "client1" 1 [del 0 5] 0;
        DocumentOperation.mk "op" "doc" "client2" 2 [del 0 2] 0]
  /\ ServerDocumentState.content scenarioB.2 = str "789".
Proof.
  split; [|by vm_compute].
  apply transformOperation_delete_delete_overlap.
Qed.

Lemma delete_delete_overlap_witness :
  transformOperation (TextOperation.mk delete 0 None (Some 10))
                     (TextOperation.mk delete 2 None (Some 3))
  = TextOperation.mk delete 0 None (Some 7).
Proof.
  apply (proj1 delete_delete_overlap 0 None (Some 10) 2 None (Some 3)).
  split; reflexivity.
Defined.

(** C10. [applyOperation] is a total function into strings; it returns
    the content as it is for a retain, for an unrecognized kind, for an
    insert without text and for a delete without length, and so for the
    no-op that a fully overlapped delete is transformed into. *)
Theorem applyOperation_total :
  (forall c op, exists r, applyOperation c op = r)
  /\ (forall c p t l, applyOperation c (TextOperation.mk retain p t l) = c)
  /\ (forall c tag p t l,
        applyOperation c (TextOperation.mk (unrecognized tag) p t l) = c)
  /\ (forall c p l, applyOperation c (TextOperation.mk insert p None l) = c)
  /\ (forall c p t, applyOperation c (TextOperation.mk delete p t None) = c)
  /\ (forall c pA tA lA pB tB lB,
        overlapping (TextOperation.mk delete pA tA lA)
                    (TextOperation.mk delete pB tB lB) ->
        default 0 lA - overlap_length (TextOperation.mk delete pA tA lA)
                                      (TextOperation.mk delete pB tB lB) <= 0 ->
        transformOperation (TextOperation.mk delete pA tA lA)
                           (TextOperation.mk delete pB tB lB) = noop
        /\ applyOperation c
             (transformOperation (TextOperation.mk delete pA tA lA)
                                 (TextOperation.mk delete pB tB lB)) = c).
Proof.
  split_and!.
  - intros c op. by eexists.
  - done.
  - done.
  - intros c p l. rewrite applyOperation_insert. unfold splice. simpl.
    apply take_drop.
  - intros c p t. unfold applyOperation. simpl.
    unfold TextOperation.length_or_0. simpl. rewrite Z.add_0_r.
    pose proof (len_nonneg c) as Hn.
    destruct (Z.lt_ge_cases p 0) as [Hneg|Hpos].
    + rewrite slice_0_neg by done.
      rewrite slice_from_neg by lia.
      replace (Z.min p (len c)) with p by lia. apply take_drop.
    + rewrite slice_0_nonneg by done.
      rewrite slice_from_nonneg by lia.
      unfold len in *.
      destruct (Z.le_gt_cases p (Z.of_nat (length c))).
      * replace (Z.min p (Z.of_nat (length c))) with p by lia. apply take_drop.
      * rewrite take_ge, drop_ge by lia. apply app_nil_r.
  - intros c pA tA lA pB tB lB Hov Hlen.
    rewrite (transformOperation_delete_delete_overlap pA tA lA pB tB lB Hov).
    simpl. by rewrite decide_True.
Qed.

End single_operations.

Lemma applyOperation_total_witness :
  applyOperation (str "abc") (transformOperation (del 2 3) (del 0 10)) = str "abc".
Proof.
  destruct applyOperation_total as (_ & _ & _ & _ & _ & Hnoop).
  apply (Hnoop (str "abc") 2 None (Some 3) 0 None (Some 10)).
  - split; reflexivity.
  - vm_compute. discriminate.
Defined.

(** ** Two concurrent operations *)

Section splice_cut.
Implicit Types (c t : jsstring) (p l i : nat).

Lemma length_splice p t c :
  length (splice p t c) = (p `min` length c + length t + (length c - p))%nat.
Proof. unfold splice. rewrite !length_app, length_take, length_drop. lia. Qed.

Lemma length_cut p l c :
  length (cut p l c) = (p `min` length c + (length c - (p + l)))%nat.
Proof. unfold cut. rewrite !length_app, length_take, length_drop. lia. Qed.

Lemma lookup_splice p t c i :
  (p <= length c)%nat ->
  splice p t c !! i
  = if decide (i < p)%nat then c !! i
    else if decide (i < p + length t)%nat then t !! (i - p)%nat
    else c !! (i - length t)%nat.
Proof.
  intros Hp. unfold splice.
  case_decide.
  - rewrite lookup_app_l by (rewrite length_take; lia). by rewrite lookup_take_lt.
  - rewrite lookup_app_r by (rewrite length_take; lia).
    rewrite length_take. replace (p `min` length c)%nat with p by lia.
    case_decide.
    + by rewrite lookup_app_l by lia.
    + rewrite lookup_app_r by lia. rewrite lookup_drop. f_equal. lia.
Qed.

Lemma lookup_cut p l c i :
  cut p l c !! i = if decide (i < p)%nat then c !! i else c !! (i + l)%nat.
Proof.
  unfold cut. case_decide.
  - destruct (decide (i < length c)%nat).
    + rewrite lookup_app_l by (rewrite length_take; lia). by rewrite lookup_take_lt.
    + rewrite lookup_app_r by (rewrite length_take; lia).
      rewrite lookup_drop, length_take.
      rewrite !lookup_ge_None_2 by lia. done.
  - destruct (decide (p <= length c)%nat).
    + rewrite lookup_app_r by (rewrite length_take; lia).
      rewrite lookup_drop, length_take. f_equal. lia.
    + rewrite lookup_app_r by (rewrite length_take; lia).
      rewrite lookup_drop, length_take.
      rewrite !lookup_ge_None_2 by lia. done.
Qed.
End splice_cut.

Ltac index_eq :=
  first [ done | f_equal; lia | rewrite !lookup_ge_None_2 by lia; done ].

Ltac by_lookup :=
  apply list_eq; intros ?i;
  repeat first
    [ rewrite lookup_cut
    | rewrite lookup_splice by (rewrite ?length_splice, ?length_cut; lia) ];
  rewrite ?length_splice, ?length_cut;
  repeat case_decide; try lia; index_eq.

Section nat_level.
Implicit Types (c s t : jsstring) (p q l m : nat).

Lemma splice_splice_lt p q s t c :
  (p < q <= length c)%nat ->
  splice (q + length s) t (splice p s c) = splice p s (splice q t c).
Proof. intros H. by_lookup. Qed.

Lemma cut_splice_le p q l s c :
  (p <= q)%nat -> (p <= length c)%nat ->
  cut (q + length s) l (splice p s c) = splice p s (cut q l c).
Proof. intros H1 H2. by_lookup. Qed.

Lemma cut_splice_ge p q l s c :
  (q + l <= p <= length c)%nat ->
  cut q l (splice p s c) = splice (p - l) s (cut q l c).
Proof. intros H. by_lookup. Qed.

Lemma cut_cut_before p q l m c :
  (p + l <= q)%nat ->
  cut (q - l) m (cut p l c) = cut p l (cut q m c).
Proof. intros H. by_lookup. Qed.

Lemma cut_cut_overlap p q l m c :
  (q < p + l)%nat -> (p < q + m)%nat ->
  cut (p `min` q) (m - ((p + l) `min` (q + m) - p `max` q)) (cut p l c)
  = cut (p `min` q) (l - ((p + l) `min` (q + m) - p `max` q)) (cut q m c).
Proof. intros H1 H2. by_lookup. Qed.

End nat_level.

Section convergence.
Implicit Types (c : jsstring) (t : option jsstring) (l : option Z).

Lemma cut_0 (p : nat) c : cut p 0 c = c.
Proof. unfold cut. rewrite Nat.add_0_r. apply take_drop. Qed.

Lemma splice_nil (p : nat) c : splice p [] c = c.
Proof. unfold splice. apply take_drop. Qed.

Lemma splice_splice_same (p : nat) (s t' c : jsstring) :
  (p <= length c)%nat ->
  splice p t' (splice p s c) = take p c ++ t' ++ s ++ drop p c.
Proof.
  intros Hp. unfold splice.
  rewrite take_app_length' by (rewrite length_take; lia).
  do 2 f_equal.
  rewrite drop_app_length' by (rewrite length_take; lia). done.
Qed.

Lemma applyOperation_insert_in_range c p t l :
  0 <= p <= len c ->
  applyOperation c (TextOperation.mk insert p t l)
  = splice (Z.to_nat p) (default [] t) c.
Proof.
  intros Hp. rewrite applyOperation_insert. unfold clamp.
  replace (Z.max 0 (Z.min p (len c))) with p by lia. done.
Qed.

Lemma text_length_or_0_mk ty p t l :
  TextOperation.text_length_or_0 (TextOperation.mk ty p t l) = len (default [] t).
Proof. by destruct t. Qed.

Lemma len_splice (p : nat) (s c : jsstring) :
  (p <= length c)%nat -> len (splice p s c) = len c + len s.
Proof. intros Hp. unfold len. rewrite length_splice. lia. Qed.

Lemma converge_sym c opA opB : converge c opA opB <-> converge c opB opA.
Proof. unfold converge. split; intros H; by symmetry. Qed.

(** Two inserts at different positions. *)
Lemma converge_insert_insert_lt c pA tA lA pB tB lB :
  0 <= pA -> pA < pB -> pB <= len c ->
  converge c (TextOperation.mk insert pA tA lA) (TextOperation.mk insert pB tB lB).
Proof.
  intros HA Hlt HB. unfold converge, transformOperation. simpl.
  destruct (Z.leb_spec pB pA); [lia|]. destruct (Z.leb_spec pA pB); [|lia].
  unfold TextOperation.with_position. simpl. rewrite text_length_or_0_mk.
  rewrite (applyOperation_insert_in_range c pA), (applyOperation_insert_in_range c pB) by lia.
  rewrite !applyOperation_insert_in_range.
  2,3: rewrite len_splice; unfold len in *; lia.
  replace (Z.to_nat (pB + len (default [] tA)))
    with (Z.to_nat pB + length (default [] tA))%nat by (unfold len; lia).
  apply splice_splice_lt. unfold len in *. lia.
Qed.

(** Two inserts at the same position. *)
Lemma converge_insert_insert_eq c p tA lA tB lB :
  0 <= p <= len c ->
  converge c (TextOperation.mk insert p tA lA) (TextOperation.mk insert p tB lB)
  <-> default [] tA ++ default [] tB = default [] tB ++ default [] tA.
Proof.
  intros Hp. unfold converge, transformOperation. simpl.
  destruct (Z.leb_spec p p); [|lia].
  rewrite (applyOperation_insert_in_range c p tA), (applyOperation_insert_in_range c p tB) by lia.
  rewrite !applyOperation_insert_in_range.
  2,3: rewrite len_splice; unfold len in *; lia.
  rewrite !splice_splice_same by (unfold len in *; lia).
  rewrite !(app_assoc (default [] _)).
  split.
  - intros Heq. apply app_inv_head, app_inv_tail in Heq. done.
  - intros Heq. by rewrite Heq.
Qed.
Lemma len_cut_ge (p l' : nat) (c : jsstring) :
  Z.of_nat (p `min` length c) <= len (cut p l' c).
Proof. unfold len. rewrite length_cut. lia. Qed.

(** An insert and a delete: the insert at or before the start of the
    range, or at or after its end. *)
Lemma converge_insert_delete_outside c pA tA lA pB tB lB :
  0 <= pA <= len c -> 0 <= pB -> 0 <= default 0 lB ->
  pA <= pB \/ pB + default 0 lB <= pA ->
  converge c (TextOperation.mk insert pA tA lA) (TextOperation.mk delete pB tB lB).
Proof.
  intros HA HB HL Hout. unfold converge, transformOperation. simpl.
  unfold TextOperation.length_or_0. simpl. rewrite text_length_or_0_mk.
  rewrite (applyOperation_insert_in_range c pA) by lia.
  rewrite (applyOperation_delete c pB) by lia.
  destruct (Z.leb_spec pA pB) as [Hle|Hgt].
  - destruct (Z.geb_spec pB pA); [|lia].
    unfold TextOperation.with_position. simpl.
    rewrite applyOperation_delete by (pose proof (len_nonneg (default [] tA)); lia).
    rewrite applyOperation_insert_in_range.
    2:{ pose proof (len_cut_ge (Z.to_nat pB) (Z.to_nat (default 0 lB)) c).
        unfold len in *. lia. }
    replace (Z.to_nat (pB + len (default [] tA)))
      with (Z.to_nat pB + length (default [] tA))%nat by (unfold len; lia).
    apply cut_splice_le; unfold len in *; lia.
  - destruct (Z.geb_spec pB pA); [lia|].
    destruct (Z.leb_spec (pB + default 0 lB) pA); [|lia].
    destruct (Z.geb_spec pA (pB + default 0 lB)); [|lia].
    unfold TextOperation.with_position. simpl.
    rewrite applyOperation_delete by lia.
    rewrite applyOperation_insert_in_range.
    2:{ unfold len in *. rewrite length_cut. lia. }
    replace (Z.to_nat (pA - default 0 lB))
      with (Z.to_nat pA - Z.to_nat (default 0%Z lB))%nat by lia.
    apply cut_splice_ge; unfold len in *; lia.
Qed.

(** An insert strictly inside the range of a delete. *)
Lemma converge_insert_delete_inside c pA tA lA pB tB lB :
  0 <= pA <= len c -> 0 <= pB -> 0 <= default 0 lB ->
  pB < pA < pB + default 0 lB ->
  converge c (TextOperation.mk insert pA tA lA) (TextOperation.mk delete pB tB lB)
  <-> default [] tA = [].
Proof.
  intros HA HB HL Hin. unfold converge, transformOperation. simpl.
  unfold TextOperation.length_or_0. simpl. rewrite text_length_or_0_mk.
  rewrite (applyOperation_insert_in_range c pA) by lia.
  rewrite (applyOperation_delete c pB) by lia.
  destruct (Z.leb_spec pA pB); [lia|].
  destruct (Z.geb_spec pB pA); [lia|].
  destruct (Z.leb_spec (pB + default 0 lB) pA); [lia|].
  destruct (Z.geb_spec pA (pB + default 0 lB)); [lia|].
  unfold TextOperation.with_position, TextOperation.with_length. simpl.
  rewrite applyOperation_delete
    by (simpl; pose proof (len_nonneg (default [] tA)); lia).
  rewrite applyOperation_insert_in_range.
  2:{ pose proof (len_cut_ge (Z.to_nat pB) (Z.to_nat (default 0 lB)) c).
      unfold len in *. lia. }
  simpl. split.
  - intros Heq. apply (f_equal length) in Heq.
    rewrite !length_cut, !length_splice, !length_cut in Heq.
    apply length_zero_iff_nil. unfold len in *. lia.
  - intros ->. rewrite !splice_nil. unfold len. simpl.
    by rewrite Z.add_0_r.
Qed.

(** Two deletes always converge. *)
Lemma applyOperation_overlap_result (x : jsstring) p t newLen :
  0 <= p ->
  applyOperation x
    (if newLen <=? 0 then TextOperation.mk retain 0 None (Some 0)
     else TextOperation.mk delete p t (Some newLen))
  = cut (Z.to_nat p) (Z.to_nat newLen) x.
Proof.
  intros Hp. destruct (Z.leb_spec newLen 0).
  - replace (Z.to_nat newLen) with 0%nat by lia. by rewrite cut_0.
  - rewrite applyOperation_delete by (simpl; lia). done.
Qed.

Lemma converge_delete_delete c pA tA lA pB tB lB :
  0 <= pA -> 0 <= default 0 lA -> 0 <= pB -> 0 <= default 0 lB ->
  converge c (TextOperation.mk delete pA tA lA) (TextOperation.mk delete pB tB lB).
Proof.
  intros HA HLA HB HLB. unfold converge, transformOperation. simpl.
  unfold TextOperation.length_or_0. simpl.
  rewrite (applyOperation_delete c pA), (applyOperation_delete c pB) by lia.
  unfold TextOperation.with_position, TextOperation.with_position_length. simpl.
  set (L := default 0 lA) in *. set (M := default 0 lB) in *.
  destruct (Z.leb_spec (pA + L) pB) as [HAB|HAB];
    destruct (Z.leb_spec (pB + M) pA) as [HBA|HBA].
  - (* both ranges are empty, at the same position *)
    rewrite !applyOperation_delete by done. fold L M.
    replace (Z.to_nat L) with 0%nat by lia.
    replace (Z.to_nat M) with 0%nat by lia.
    by rewrite !cut_0.
  - (* A entirely before B *)
    destruct (Z.geb_spec pB (pA + L)); [|lia].
    rewrite !applyOperation_delete by (simpl; lia). simpl. fold L M.
    replace (Z.to_nat (pB - L)) with (Z.to_nat pB - Z.to_nat L)%nat by lia.
    apply cut_cut_before. lia.
  - (* B entirely before A *)
    destruct (Z.geb_spec pA (pB + M)); [|lia].
    rewrite !applyOperation_delete by (simpl; lia). simpl. fold L M.
    replace (Z.to_nat (pA - M)) with (Z.to_nat pA - Z.to_nat M)%nat by lia.
    symmetry. apply cut_cut_before. lia.
  - (* the ranges overlap *)
    destruct (Z.geb_spec pB (pA + L)); [lia|].
    destruct (Z.geb_spec pA (pB + M)); [lia|].
    rewrite !applyOperation_overlap_result by lia.
    replace (Z.to_nat (Z.min pB pA))
      with (Z.to_nat pA `min` Z.to_nat pB)%nat by lia.
    replace (Z.to_nat (Z.min pA pB))
      with (Z.to_nat pA `min` Z.to_nat pB)%nat by lia.
    replace (Z.to_nat (M - (Z.min (pB + M) (pA + L) - Z.max pB pA)))
      with (Z.to_nat M
            - ((Z.to_nat pA + Z.to_nat L) `min` (Z.to_nat pB + Z.to_nat M)
               - Z.to_nat pA `max` Z.to_nat pB))%nat by lia.
    replace (Z.to_nat (L - (Z.min (pA + L) (pB + M) - Z.max pA pB)))
      with (Z.to_nat L
            - ((Z.to_nat pA + Z.to_nat L) `min` (Z.to_nat pB + Z.to_nat M)
               - Z.to_nat pA `max` Z.to_nat pB))%nat by lia.
    apply cut_cut_overlap; lia.
Qed.

Lemma not_insert_inside_delete_iff opI opD :
  TextOperation.type opI = insert -> TextOperation.type opD = delete ->
  TextOperation.position opD < TextOperation.position opI < range_end opD ->
  ~ insert_inside_delete opI opD <-> TextOperation.text_or_empty opI = [].
Proof.
  intros HI HD Hin. unfold insert_inside_delete. split.
  - intros Hno. destruct (TextOperation.text_or_empty opI) as [|a s]; [done|].
    destruct Hno. split_and!; first [done | lia].
  - intros Hnil (_ & _ & _ & Hne). done.
Qed.

(** C1, as the code has it. For two operations issued against the same
    content (positions and lengths not negative, inserts within the
    content) the two orders of application give the same string exactly
    when the pair is neither two inserts at one position whose texts do
    not commute, nor an insert of some text strictly inside the range of
    the other operation, a delete. *)
Theorem convergence_characterised c opA opB :
  issued_against c opA -> issued_against c opB ->
  (converge c opA opB
   <-> ~ insert_tie opA opB
       /\ ~ insert_inside_delete opA opB
       /\ ~ insert_inside_delete opB opA).
Proof.
  destruct opA as [tyA pA tA lA], opB as [tyB pB tB lB].
  unfold issued_against. simpl. intros HA HB.
  destruct tyA, tyB;
    try (split; [intros _; split_and!; intros (? & ? & _); done | intros _; done]).
  - (* insert, insert *)
    destruct (Z.lt_trichotomy pA pB) as [Hlt|[->|Hgt]].
    + split.
      * intros _. split_and!; unfold insert_tie, insert_inside_delete; simpl;
          [intros (_ & _ & ? & _); lia | intros (_ & ? & _); done..].
      * intros _. apply converge_insert_insert_lt; lia.
    + rewrite converge_insert_insert_eq by done.
      unfold insert_tie, insert_inside_delete, TextOperation.text_or_empty. simpl.
      split.
      * intros Heq. split_and!; [|intros (_ & ? & _); done..].
        intros (_ & _ & _ & Hne). done.
      * intros (Hno & _). destruct (decide (default [] tA ++ default [] tB
                                          = default [] tB ++ default [] tA));
          [done|]. destruct Hno. by split_and!.
    + split.
      * intros _. split_and!; unfold insert_tie, insert_inside_delete; simpl;
          [intros (_ & _ & ? & _); lia | intros (_ & ? & _); done..].
      * intros _. apply converge_sym, converge_insert_insert_lt; lia.
  - (* insert, delete *)
    unfold TextOperation.length_or_0 in HB. simpl in HB.
    destruct (decide (pB < pA < pB + default 0 lB)) as [Hin|Hout].
    + rewrite converge_insert_delete_inside by lia.
      rewrite <-(not_insert_inside_delete_iff
                   (TextOperation.mk insert pA tA lA)
                   (TextOperation.mk delete pB tB lB)) by done.
      split; [|tauto]. intros Hno. split_and!; [|done|].
      * intros (_ & ? & _). done.
      * intros (? & _). done.
    + split.
      * intros _. split_and!.
        -- intros (_ & ? & _). done.
        -- intros (_ & _ & Hin & _). unfold range_end, TextOperation.length_or_0 in Hin.
           simpl in Hin. lia.
        -- intros (? & _). done.
      * intros _. apply converge_insert_delete_outside; lia.
  - (* delete, insert *)
    unfold TextOperation.length_or_0 in HA. simpl in HA.
    rewrite converge_sym.
    destruct (decide (pA < pB < pA + default 0 lA)) as [Hin|Hout].
    + rewrite converge_insert_delete_inside by lia.
      rewrite <-(not_insert_inside_delete_iff
                   (TextOperation.mk insert pB tB lB)
                   (TextOperation.mk delete pA tA lA)) by done.
      split; [|tauto]. intros Hno. split_and!; [| |done].
      * intros (? & _). done.
      * intros (? & _). done.
    + split.
      * intros _. split_and!.
        -- intros (? & _). done.
        -- intros (? & _). done.
        -- intros (_ & _ & Hin & _). unfold range_end, TextOperation.length_or_0 in Hin.
           simpl in Hin. lia.
      * intros _. apply converge_insert_delete_outside; lia.
  - (* delete, delete *)
    unfold TextOperation.length_or_0 in HA, HB. simpl in HA, HB.
    split.
    + intros _. split_and!; intros (? & _); done.
    + intros _. apply converge_delete_delete; lia.
Qed.

Lemma convergence_characterised_witness :
  converge (str "abc") (ins 1 "X") (del 1 2)
  <-> ~ insert_tie (ins 1 "X") (del 1 2)
      /\ ~ insert_inside_delete (ins 1 "X") (del 1 2)
      /\ ~ insert_inside_delete (del 1 2) (ins 1 "X").
Proof.
  apply (convergence_characterised (str "abc") (ins 1 "X") (del 1 2)).
  - unfold issued_against, len. simpl. lia.
  - unfold issued_against, TextOperation.length_or_0. simpl. lia.
Defined.

(** C1, as the specification has it, fails: two different characters
    inserted at the same position end up in opposite orders; an insert
    inside a deleted range survives on one side and is deleted on the
    other; and operations outside the content (an insert beyond the end,
    a negative position, a negative length) diverge as well. *)
Lemma convergence_fails :
  (applyOperation (applyOperation (str "") (ins 0 "a"))
     (transformOperation (ins 0 "b") (ins 0 "a")) = str "ba"
   /\ applyOperation (applyOperation (str "") (ins 0 "b"))
        (transformOperation (ins 0 "a") (ins 0 "b")) = str "ab")
  /\ (applyOperation (applyOperation (str "abc") (ins 1 "X"))
        (transformOperation (del 0 2) (ins 1 "X")) = str "c"
      /\ applyOperation (applyOperation (str "abc") (del 0 2))
           (transformOperation (ins 1 "X") (del 0 2)) = str "Xc")
  /\ ~ converge (str "") (ins 0 "a") (ins 0 "b")
  /\ ~ converge (str "abc") (ins 1 "X") (del 0 2)
  /\ ~ converge (str "abc") (ins 10 "X") (ins 5 "Y")
  /\ ~ converge (str "abc") (ins (-2) "X") (ins (-1) "Y")
  /\ ~ converge (str "abc") (ins 0 "X") (del (-1) 1)
  /\ ~ converge (str "abc") (ins 0 "X") (del 0 (-1)).
Proof. split_and!; by vm_compute. Qed.

End convergence.

(** ** The last participant leaves *)

Section leave.
Implicit Types (documentId socketId userId : string) (user : UserPresence.t).








End leave.

(** ** Further properties of the engine *)

Section engine.
Implicit Types (c : jsstring) (p : Z) (t : option jsstring) (l : option Z).

Lemma len_take_drop c (k : nat) (s : jsstring) :
  (k <= length c)%nat -> len (take k c ++ s ++ drop k c) = len c + len s.
Proof.
  intros Hk. unfold len. rewrite !length_app, length_take, length_drop. lia.
Qed.

Lemma len_applyOperation_insert c p t l :
  len (applyOperation c (TextOperation.mk insert p t l))
  = len c + len (default [] t).
Proof.
  rewrite applyOperation_insert. unfold splice.
  apply len_take_drop. unfold clamp, len. lia.
Qed.

Lemma len_applyOperation_delete c p t l :
  0 <= p -> 0 <= default 0 l ->
  len (applyOperation c (TextOperation.mk delete p t l))
  = len c - (Z.min (p + default 0 l) (len c) - Z.min p (len c)).
Proof.
  intros Hp Hl. rewrite applyOperation_delete_range by done.
  pose proof (len_nonneg c) as Hn.
  unfold len in *. rewrite length_app, length_take, length_drop. lia.
Qed.

(** X1. An insert, whatever its position, splices its text at the position
    clamped to the content and makes the content longer by the length of
    the text. *)
Theorem insert_effect c p t l :
  applyOperation c (TextOperation.mk insert p t l)
  = take (Z.to_nat (clamp (len c) p)) c ++ default [] t
    ++ drop (Z.to_nat (clamp (len c) p)) c
  /\ len (applyOperation c (TextOperation.mk insert p t l))
     = len c + len (default [] t).
Proof.
  split; [|apply len_applyOperation_insert].
  by rewrite applyOperation_insert.
Qed.

(** X2. A delete with a position and a length that are not negative removes
    the part of its range that lies in the content, never makes the
    content longer and leaves the characters before the position alone. *)
Theorem delete_effect c p t l :
  0 <= p -> 0 <= default 0 l ->
  applyOperation c (TextOperation.mk delete p t l)
  = take (Z.to_nat (Z.min p (len c))) c
    ++ drop (Z.to_nat (Z.min (p + default 0 l) (len c))) c
  /\ len (applyOperation c (TextOperation.mk delete p t l))
     = len c - (Z.min (p + default 0 l) (len c) - Z.min p (len c))
  /\ take (Z.to_nat p) (applyOperation c (TextOperation.mk delete p t l))
     = take (Z.to_nat p) c.
Proof.
  intros Hp Hl. split; [|split; [by apply len_applyOperation_delete|]].
  { by apply applyOperation_delete_range. }
  rewrite applyOperation_delete_range by done.
  pose proof (len_nonneg c) as Hn. unfold len in *.
  destruct (Z.le_gt_cases p (Z.of_nat (length c))).
  - replace (Z.to_nat (Z.min p (Z.of_nat (length c)))) with (Z.to_nat p) by lia.
    rewrite take_app_le by (rewrite length_take; lia).
    rewrite take_take. f_equal. lia.
  - replace (Z.to_nat (Z.min p (Z.of_nat (length c)))) with (length c) by lia.
    replace (Z.to_nat (Z.min (p + default 0 l) (Z.of_nat (length c))))
      with (length c) by lia.
    rewrite (take_ge c (length c)), (drop_ge c (length c)) by lia.
    by rewrite app_nil_r.
Qed.

Lemma delete_effect_witness :
  applyOperation (str "abcdef") (del 4 10) = str "abcd".
Proof.
  etransitivity;
    [apply (proj1 (delete_effect (str "abcdef") 4 None (Some 10)
                     ltac:(lia) ltac:(simpl; lia)))|].
  reflexivity.
Defined.

(** X3. Deleting what an insert has just put in gives the content back,
    wherever the insert was aimed. *)
Theorem insert_then_delete c p (s : jsstring) l t' :
  applyOperation
    (applyOperation c (TextOperation.mk insert p (Some s) l))
    (TextOperation.mk delete (clamp (len c) p) t' (Some (len s)))
  = c.
Proof.
  rewrite applyOperation_insert. simpl.
  rewrite applyOperation_delete
    by (simpl; unfold clamp; pose proof (len_nonneg s); lia).
  simpl. set (k := Z.to_nat (clamp (len c) p)).
  assert (k <= length c)%nat as Hk by (unfold k, clamp, len; lia).
  unfold cut, splice, len. rewrite Nat2Z.id.
  rewrite take_app_le by (rewrite length_take; lia).
  rewrite take_take, Nat.min_id.
  rewrite drop_app_ge by (rewrite length_take; lia).
  rewrite length_take.
  replace (k + length s - k `min` length c)%nat with (length s) by lia.
  rewrite drop_app_length. apply take_drop.
Qed.

Lemma splice_removed (P E : nat) c :
  (P <= E <= length c)%nat ->
  splice P (take (E - P) (drop P c)) (take P c ++ drop E c) = c.
Proof.
  intros HPE. unfold splice.
  rewrite take_app_le by (rewrite length_take; lia).
  rewrite take_take, Nat.min_id.
  rewrite drop_app_ge by (rewrite length_take; lia).
  rewrite length_take.
  replace (P - P `min` length c)%nat with 0%nat by lia. rewrite drop_0.
  replace (drop E c) with (drop (E - P) (drop P c))
    by (rewrite drop_drop; f_equal; lia).
  by rewrite take_drop, take_drop.
Qed.

(** X4. Inserting back, at the same position, the text a delete has removed
    gives the content back. *)
Theorem delete_then_insert c p (n : Z) t l' :
  0 <= p -> 0 <= n ->
  applyOperation
    (applyOperation c (TextOperation.mk delete p t (Some n)))
    (TextOperation.mk insert p (Some (slice c p (p + n))) l')
  = c.
Proof.
  intros Hp Hn. pose proof (len_nonneg c) as Hc.
  rewrite applyOperation_delete_range by done. simpl.
  rewrite applyOperation_insert. simpl.
  unfold slice. rewrite !rel_index_nonneg by lia.
  set (x := take _ c ++ drop _ c).
  assert (len x = len c - (Z.min (p + n) (len c) - Z.min p (len c))) as Hx.
  { unfold x, len in *. rewrite length_app, length_take, length_drop. lia. }
  destruct (Z.le_gt_cases p (len c)) as [Hin|Hout].
  - replace (Z.to_nat (clamp (len x) p)) with (Z.to_nat p)
      by (unfold clamp; lia).
    replace (Z.to_nat (Z.min (p + n) (len c) - Z.min p (len c)))
      with (Z.to_nat (Z.min (p + n) (len c)) - Z.to_nat p)%nat by lia.
    replace (Z.to_nat (Z.min p (len c))) with (Z.to_nat p) by lia.
    unfold x.
    replace (Z.to_nat (Z.min p (len c))) with (Z.to_nat p) by lia.
    apply splice_removed. unfold len in *. lia.
  - replace (Z.to_nat (Z.min (p + n) (len c) - Z.min p (len c))) with 0%nat by lia.
    rewrite take_0, splice_nil. unfold x, len in *.
    rewrite take_ge, drop_ge by lia. apply app_nil_r.
Qed.

Lemma delete_then_insert_witness :
  applyOperation (applyOperation (str "abcdef") (del 2 3))
                 (TextOperation.mk insert 2 (Some (slice (str "abcdef") 2 5)) None)
  = str "abcdef".
Proof.
  apply (delete_then_insert (str "abcdef") 2 3 None None); lia.
Defined.

(** The length of the content after an operation that was issued
    against it. *)
Lemma len_applyOperation_issued c op :
  issued_against c op ->
  len (applyOperation c op)
  = match TextOperation.type op with
    | insert => len c + len (TextOperation.text_or_empty op)
    | delete =>
        len c - (Z.min (range_end op) (len c)
                 - Z.min (TextOperation.position op) (len c))
    | _ => len c
    end.
Proof.
  destruct op as [ty p t l]. unfold issued_against, range_end. simpl.
  destruct ty; try done.
  - intros _. apply len_applyOperation_insert.
  - unfold TextOperation.length_or_0. simpl. intros [Hp Hl].
    by apply len_applyOperation_delete.
Qed.

Ltac transform_cases :=
  unfold transformOperation, TextOperation.length_or_0; simpl;
  repeat match goal with
         | |- context [Z.leb ?a ?b] => destruct (Z.leb_spec a b)
         | |- context [Z.geb ?a ?b] => destruct (Z.geb_spec a b)
         end.

(** X5. An operation transformed against [opB] can be issued against the
    content that [opB] produces: its position and length are not negative
    and a transformed insert lies within the new content. *)
Theorem transform_keeps_issued c opA opB :
  issued_against c opA -> issued_against c opB ->
  issued_against (applyOperation c opB) (transformOperation opA opB).
Proof.
  intros HA HB. pose proof (len_applyOperation_issued c opB HB) as Hlen.
  pose proof (len_nonneg c) as Hc.
  destruct opA as [tyA pA tA lA], opB as [tyB pB tB lB].
  pose proof (len_nonneg (default [] tB)) as HtB.
  unfold issued_against, range_end, TextOperation.text_or_empty in *.
  unfold TextOperation.length_or_0 in *. simpl in *.
  destruct tyA, tyB; try done; simpl in *;
    unfold transformOperation; simpl; rewrite ?text_length_or_0_mk;
    unfold TextOperation.length_or_0; simpl;
    repeat match goal with
           | |- context [Z.leb ?a ?b] => destruct (Z.leb_spec a b)
           | |- context [Z.geb ?a ?b] => destruct (Z.geb_spec a b)
           end; simpl; try done; lia.
Qed.

Lemma transform_keeps_issued_witness :
  issued_against (applyOperation (str "abcdef") (del 1 3))
                 (transformOperation (ins 5 "X") (del 1 3)).
Proof.
  apply transform_keeps_issued.
  - unfold issued_against, len. simpl. lia.
  - unfold issued_against, TextOperation.length_or_0. simpl. lia.
Defined.

(** X6. The same for operations that lie inside the content: a transformed
    delete does not reach beyond the end of the new content either. *)
Theorem transform_keeps_in_bounds c opA opB :
  in_bounds c opA -> in_bounds c opB ->
  in_bounds (applyOperation c opB) (transformOperation opA opB).
Proof.
  intros HA HB.
  assert (issued_against c opB) as HiB.
  { destruct opB as [[] pB tB lB]; unfold in_bounds, issued_against in *;
      simpl in *; tauto. }
  pose proof (len_applyOperation_issued c opB HiB) as Hlen.
  pose proof (len_nonneg c) as Hc.
  destruct opA as [tyA pA tA lA], opB as [tyB pB tB lB].
  pose proof (len_nonneg (default [] tB)) as HtB.
  unfold in_bounds, range_end, TextOperation.text_or_empty in *.
  unfold TextOperation.length_or_0 in *. simpl in *.
  destruct tyA, tyB; try done; simpl in *;
    unfold transformOperation; simpl; rewrite ?text_length_or_0_mk;
    unfold TextOperation.length_or_0; simpl;
    repeat match goal with
           | |- context [Z.leb ?a ?b] => destruct (Z.leb_spec a b)
           | |- context [Z.geb ?a ?b] => destruct (Z.geb_spec a b)
           end; simpl; try done; lia.
Qed.

Lemma transform_keeps_in_bounds_witness :
  in_bounds (applyOperation (str "abcdef") (del 1 3))
            (transformOperation (del 2 4) (del 1 3)).
Proof.
  apply transform_keeps_in_bounds.
  - unfold in_bounds, range_end, TextOperation.length_or_0, len. simpl. lia.
  - unfold in_bounds, range_end, TextOperation.length_or_0, len. simpl. lia.
Defined.

(** X7. A transformation never changes what an operation is about: an insert
    stays an insert of the same text; a delete stays a delete or becomes
    the no-op; a retain or an unrecognized operation is returned as it
    is. *)
Theorem transform_keeps_kind opA opB :
  match TextOperation.type opA with
  | insert =>
      TextOperation.type (transformOperation opA opB) = insert
      /\ TextOperation.text (transformOperation opA opB) = TextOperation.text opA
      /\ TextOperation.length (transformOperation opA opB)
         = TextOperation.length opA
  | delete =>
      transformOperation opA opB = noop
      \/ (TextOperation.type (transformOperation opA opB) = delete
          /\ TextOperation.text (transformOperation opA opB)
             = TextOperation.text opA)
  | retain | unrecognized _ => transformOperation opA opB = opA
  end.
Proof.
  destruct opA as [tyA pA tA lA], opB as [tyB pB tB lB].
  destruct tyA, tyB; simpl; try done; transform_cases; simpl; auto.
Qed.

(** X8. Transforming against an operation that changes nothing changes
    nothing. *)
Theorem transform_against_nothing c opA opB :
  changes_nothing opB ->
  applyOperation c opB = c /\ transformOperation opA opB = opA.
Proof.
  intros HB. split.
  - destruct opB as [[] pB tB lB]; unfold changes_nothing in HB; simpl in HB;
      try done.
    + rewrite applyOperation_insert.
      unfold TextOperation.text_or_empty in HB. simpl in HB. rewrite HB.
      apply splice_nil.
    + unfold TextOperation.length_or_0 in HB. simpl in HB.
      unfold applyOperation, TextOperation.length_or_0. simpl.
      rewrite HB, Z.add_0_r. pose proof (len_nonneg c) as Hn.
      destruct (Z.lt_ge_cases pB 0) as [Hneg|Hpos].
      * rewrite slice_0_neg by done. rewrite slice_from_neg by lia.
        replace (Z.min pB (len c)) with pB by lia. apply take_drop.
      * rewrite slice_0_nonneg by done. rewrite slice_from_nonneg by lia.
        unfold len in *.
        destruct (Z.le_gt_cases pB (Z.of_nat (length c))).
        -- replace (Z.min pB (Z.of_nat (length c))) with pB by lia.
           apply take_drop.
        -- rewrite take_ge, drop_ge by lia. apply app_nil_r.
  - destruct opA as [tyA pA tA lA], opB as [tyB pB tB lB].
    unfold changes_nothing, TextOperation.text_or_empty,
      TextOperation.length_or_0 in HB. simpl in HB.
    destruct tyA, tyB; try done; unfold transformOperation; simpl;
      rewrite ?text_length_or_0_mk; unfold TextOperation.length_or_0; simpl;
      rewrite ?HB; unfold len; simpl;
      repeat match goal with
             | |- context [Z.leb ?a ?b] => destruct (Z.leb_spec a b)
             | |- context [Z.geb ?a ?b] => destruct (Z.geb_spec a b)
             end;
      unfold TextOperation.with_position, TextOperation.with_length,
        TextOperation.with_position_length; simpl;
      try done; try lia;
      try (destruct lA as [a|]; simpl in *; [|lia]);
      f_equal; try lia; f_equal; lia.
Qed.

Lemma transform_against_nothing_witness :
  applyOperation (str "abc") (del 1 0) = str "abc"
  /\ transformOperation (del 0 3) (del 1 0) = del 0 3.
Proof.
  apply (transform_against_nothing (str "abc") (del 0 3) (del 1 0)).
  reflexivity.
Defined.

(** X9. Transforming a list of operations keeps their number, and
    transforming against one list after another is transforming against
    the two lists joined. *)
Theorem transformDocumentOperation_compose opsA opsB opsC :
  length (transformDocumentOperation opsA opsB) = length opsA
  /\ transformDocumentOperation (transformDocumentOperation opsA opsB) opsC
     = transformDocumentOperation opsA (opsB ++ opsC)
  /\ transformDocumentOperation opsA [] = opsA
  /\ transformDocumentOperation [] opsB = [].
Proof.
  rewrite !transformDocumentOperation_batch. split_and!.
  - unfold transformBatch. by rewrite length_map.
  - apply transformBatch_app.
  - unfold transformBatch. simpl. apply map_id.
  - done.
Qed.

End engine.

(** ** Further properties of the sequencer *)

Section sequencer_more.
Import ServerDocumentState.
Implicit Types (this : ServerDocumentState.t) (docOp : DocumentOperation.t).

Lemma last_n_snoc {A} (n : nat) (l : list A) (x : A) :
  (0 < n)%nat -> exists l', last_n n (l ++ [x]) = l' ++ [x].
Proof.
  intros Hn. unfold last_n. rewrite length_app. simpl.
  exists (drop (length l + 1 - n) l).
  rewrite drop_app_le by lia. done.
Qed.

(** The outcome of one call, in full. *)
Lemma receiveOperation_outcome this docOp :
  match receiveOperation this docOp with
  | (Some r, this') =>
      DocumentOperation.version docOp <= version this
      /\ DocumentOperation.id (transformed r) = DocumentOperation.id docOp
      /\ DocumentOperation.documentId (transformed r)
         = DocumentOperation.documentId docOp
      /\ DocumentOperation.userId (transformed r) = DocumentOperation.userId docOp
      /\ DocumentOperation.timestamp (transformed r)
         = DocumentOperation.timestamp docOp
      /\ length (DocumentOperation.operations (transformed r))
         = length (DocumentOperation.operations docOp)
      /\ DocumentOperation.version (transformed r) = version this'
      /\ newVersion r = version this'
      /\ newContent r = content this'
      /\ content this' = applyOperations (content this) (transformed r)
      /\ last (history this') = Some (transformed r)
  | (None, this') =>
      version this < DocumentOperation.version docOp /\ this' = this
  end.
Proof.
  unfold receiveOperation.
  destruct (Z.ltb_spec (DocumentOperation.version docOp) (version this)).
  - rewrite fold_transform_missed, accept_eq. simpl.
    destruct (last_n_snoc 100 (history this)
                (DocumentOperation.with_version
                   (DocumentOperation.with_operations docOp
                      (transformBatch (DocumentOperation.operations docOp)
                         (text_operations (missedOps this docOp))))
                   (version this + 1)) ltac:(lia)) as [l' ->].
    rewrite last_snoc. split_and!; try done; try lia.
    unfold transformBatch. by rewrite length_map.
  - destruct (Z.gtb_spec (DocumentOperation.version docOp) (version this)).
    + split; [lia|done].
    + rewrite accept_eq. simpl.
      destruct (last_n_snoc 100 (history this)
                  (DocumentOperation.with_version docOp (version this + 1))
                  ltac:(lia)) as [l' ->].
      rewrite last_snoc. split_and!; try done; lia.
Qed.


(** X10. What the caller gets back. An operation is rejected only for a base
    version ahead of the document; an accepted one comes back with its
    id, document, author and timestamp, with as many text operations as
    were submitted, stamped with the new version, and it is the newest
    entry of the history; the content and version returned are those the
    instance now holds. *)
Theorem receiveOperation_result this docOp :
  match receiveOperation this docOp with
  | (Some r, this') =>
      DocumentOperation.version docOp <= version this
      /\ DocumentOperation.id (transformed r) = DocumentOperation.id docOp
      /\ DocumentOperation.documentId (transformed r)
         = DocumentOperation.documentId docOp
      /\ DocumentOperation.userId (transformed r) = DocumentOperation.userId docOp
      /\ DocumentOperation.timestamp (transformed r)
         = DocumentOperation.timestamp docOp
      /\ length (DocumentOperation.operations (transformed r))
         = length (DocumentOperation.operations docOp)
      /\ DocumentOperation.version (transformed r) = version this'
      /\ newVersion r = version this'
      /\ newContent r = content this'
      /\ content this' = applyOperations (content this) (transformed r)
      /\ last (history this') = Some (transformed r)
  | (None, this') =>
      version this < DocumentOperation.version docOp /\ this' = this
  end.
Proof. apply receiveOperation_outcome. Qed.

(** X11. An operation is applied exactly as submitted when it is based on the
    current version, or when every retained entry that is not older than
    its base version is by its own author. *)
Theorem own_entries_are_skipped this docOp :
  DocumentOperation.version docOp <= version this ->
  (DocumentOperation.version docOp = version this
   \/ Forall (fun h =>
                DocumentOperation.version docOp <= DocumentOperation.version h ->
                DocumentOperation.userId h = DocumentOperation.userId docOp)
             (history this)) ->
  (receiveOperation this docOp).1
  = Some (accepted_as this docOp (DocumentOperation.operations docOp)).
Proof.
  intros Hle Hown. unfold receiveOperation.
  destruct (Z.ltb_spec (DocumentOperation.version docOp) (version this)) as [Hlt|Hge].
  - destruct Hown as [Heq|Hown]; [lia|].
    rewrite fold_transform_missed, accept_eq, missedOps_filter. simpl.
    assert (filter (missed docOp) (history this) = []) as ->.
    { induction Hown as [|h hs Hh _ IH]; [done|].
      rewrite filter_cons, IH. destruct (decide (missed docOp h)) as [[Hv Hu]|]; [|done].
      by destruct Hu; apply Hh. }
    unfold text_operations, transformBatch. simpl. rewrite map_id.
    by destruct docOp.
  - destruct (Z.gtb_spec (DocumentOperation.version docOp) (version this)); [lia|].
    rewrite accept_eq. by destruct docOp.
Qed.

Lemma own_entries_are_skipped_witness :
  (receiveOperation scenarioA_1 (docop "client1" 0 [del 0 1])).1
  = Some (accepted_as scenarioA_1 (docop "client1" 0 [del 0 1]) [del 0 1]).
Proof.
  apply (own_entries_are_skipped scenarioA_1 (docop "client1" 0 [del 0 1])).
  - by vm_compute.
  - right. repeat constructor.
Defined.

(** X12. The content of the instance is the initial content with the
    canonical operations applied in order: who applies every canonical
    operation to the content it joined with holds the content of the
    server. *)
Theorem content_is_replay this docOps :
  content (receiveAll this docOps).2
  = fold_left applyOperations (canonical (receiveAll this docOps).1) (content this).
Proof.
  revert this. induction docOps as [|docOp rest IH]; intros this; [done|].
  simpl. pose proof (receiveOperation_outcome this docOp) as Hstep.
  destruct (receiveOperation this docOp) as [[r|] this'].
  - destruct Hstep as (_ & _ & _ & _ & _ & _ & _ & _ & _ & Hc & _).
    specialize (IH this'). destruct (receiveAll this' rest) as [rs final].
    simpl in *. unfold canonical, accepted in *. simpl. by rewrite IH, Hc.
  - destruct Hstep as [_ ->]. specialize (IH this).
    destruct (receiveAll this rest) as [rs final]. done.
Qed.

Lemma drop_seqZ (d : nat) (a n : Z) :
  Z.of_nat d <= n -> drop d (seqZ a n) = seqZ (a + Z.of_nat d) (n - Z.of_nat d).
Proof.
  intros Hd.
  replace n with (Z.of_nat d + (n - Z.of_nat d)) at 1 by lia.
  rewrite seqZ_app by lia.
  rewrite drop_app_length'; [done|]. rewrite length_seqZ. lia.
Qed.

Lemma accept_history_versions this docOp :
  history_versions_end_at_version this ->
  history_versions_end_at_version (accept this docOp).2.
Proof.
  unfold history_versions_end_at_version. intros Hinv.
  rewrite accept_eq. simpl. unfold last_n, len.
  rewrite <-skipn_map, map_app, Hinv. simpl.
  rewrite length_drop, !length_app. simpl.
  set (k := length (history this)).
  replace [version this + 1]
    with (seqZ ((version this - Z.of_nat k + 1) + Z.of_nat k) 1)
    by (unfold seqZ; simpl; f_equal; lia).
  rewrite <-seqZ_app by lia.
  rewrite drop_seqZ by lia. f_equal; lia.
Qed.

Lemma receiveAll_history_versions this docOps :
  history_versions_end_at_version this ->
  history_versions_end_at_version (receiveAll this docOps).2.
Proof.
  revert this. induction docOps as [|docOp rest IH]; intros this Hinv; [done|].
  simpl.
  destruct (receiveOperation_cases this docOp) as [[_ ->]|[_ [ops ->]]].
  - specialize (IH this Hinv). destruct (receiveAll this rest) as [rs final].
    exact IH.
  - pose proof (accept_history_versions this
                  (DocumentOperation.with_operations docOp ops) Hinv) as Hinv'.
    destruct (accept this (DocumentOperation.with_operations docOp ops))
      as [r this'].
    specialize (IH this' Hinv'). destruct (receiveAll this' rest) as [rs final].
    exact IH.
Qed.

(** X13. From a fresh instance on, the retained entries carry consecutive
    versions that end at the current version, oldest first; so every
    retained entry is one of the last 100 versions. *)
Theorem history_versions_contiguous content v docOps :
  history_versions_end_at_version (receiveAll (new content v) docOps).2
  /\ Forall (fun h =>
               version (receiveAll (new content v) docOps).2 - 100
               < DocumentOperation.version h
               <= version (receiveAll (new content v) docOps).2)
            (history (receiveAll (new content v) docOps).2).
Proof.
  assert (history_versions_end_at_version (receiveAll (new content v) docOps).2)
    as Hinv by (by apply receiveAll_history_versions).
  split; [done|].
  pose proof (receiveAll_history (new content v) docOps) as Hh.
  simpl in Hh. specialize (Hh ltac:(lia)).
  assert (length (history (receiveAll (new content v) docOps).2) <= 100)%nat as Hlen.
  { rewrite Hh, length_last_n. lia. }
  set (final := (receiveAll (new content v) docOps).2) in *.
  unfold history_versions_end_at_version in Hinv.
  apply Forall_forall. intros h Hh'.
  assert (DocumentOperation.version h ∈ map DocumentOperation.version (history final))
    as Hv by (apply list_elem_of_In, in_map, list_elem_of_In, Hh').
  rewrite Hinv in Hv. apply elem_of_seqZ in Hv. unfold len in *. lia.
Qed.

End sequencer_more.

(** ** The other handlers of [server.ts] *)

Section server_handlers.
Implicit Types (w : Server.t) (conn : Connection.t) (room : Room)
  (documentId userId key : string) (user : UserPresence.t).

Lemma truthy_Some x s : truthy x = Some s -> x = Some s /\ s <> "".
Proof. destruct x as [[|a x]|]; simpl; intros [= <-]; done. Qed.

Lemma room_get_set_eq room key user : room_get (room_set room key user) key = Some user.
Proof.
  unfold room_get. induction room as [|[k v] room IH]; simpl.
  - by rewrite String.eqb_refl.
  - destruct (String.eqb_spec k key) as [->|Hne]; simpl.
    + by rewrite String.eqb_refl.
    + destruct (String.eqb_spec k key); [done|]. exact IH.
Qed.

Lemma room_get_set_ne room key key' user :
  key' <> key -> room_get (room_set room key user) key' = room_get room key'.
Proof.
  intros Hne. unfold room_get. induction room as [|[k v] room IH]; simpl.
  - destruct (String.eqb_spec key key'); [congruence|done].
  - destruct (String.eqb_spec k key) as [->|Hk]; simpl.
    + destruct (String.eqb_spec key key'); [congruence|done].
    + destruct (String.eqb_spec k key'); [done|]. exact IH.
Qed.

Lemma room_get_None_has room key : room_get room key = None <-> room_has room key = false.
Proof.
  unfold room_get, room_has. induction room as [|[k v] room IH]; simpl; [done|].
  destruct (String.eqb_spec k key); simpl; [done|]. exact IH.
Qed.

Lemma room_set_fresh room key user :
  room_get room key = None -> room_set room key user = room ++ [(key, user)].
Proof.
  unfold room_get. induction room as [|[k v] room IH]; simpl; [done|].
  destruct (String.eqb_spec k key); simpl; [done|].
  intros Hnone. by rewrite IH.
Qed.

Lemma room_delete_fresh room key : room_get room key = None -> room_delete room key = room.
Proof.
  unfold room_get, room_delete. induction room as [|[k v] room IH]; simpl; [done|].
  destruct (String.eqb_spec k key); simpl; [done|].
  intros Hnone. by rewrite IH.
Qed.

Lemma room_delete_set_fresh room key user :
  room_get room key = None -> room_delete (room_set room key user) key = room.
Proof.
  intros Hnone. rewrite room_set_fresh by done.
  unfold room_delete. rewrite List.filter_app. simpl. rewrite String.eqb_refl. simpl.
  rewrite app_nil_r. by apply room_delete_fresh.
Qed.

Lemma keys_room_set room key user :
  map fst (room_set room key user)
  = if room_has room key then map fst room else map fst room ++ [key].
Proof.
  unfold room_has. induction room as [|[k v] room IH]; simpl; [done|].
  destruct (String.eqb_spec k key) as [->|Hk]; simpl; [done|].
  rewrite IH. by destruct (existsb _ room).
Qed.

Lemma room_has_false_keys room key : room_has room key = false -> key ∉ map fst room.
Proof.
  unfold room_has. induction room as [|[k v] room IH]; simpl.
  - intros _. apply not_elem_of_nil.
  - destruct (String.eqb_spec k key) as [->|Hk]; simpl; [done|].
    intros Hno. apply not_elem_of_cons. split; [congruence|by apply IH].
Qed.

Lemma NoDup_keys_room_set room key user :
  NoDup (map fst room) -> NoDup (map fst (room_set room key user)).
Proof.
  intros Hnd. rewrite keys_room_set.
  destruct (room_has room key) eqn:Hhas; [done|].
  apply NoDup_app. split_and!; [done| |apply NoDup_singleton].
  intros k Hk Hin. apply list_elem_of_singleton in Hin as ->.
  by apply room_has_false_keys in Hhas.
Qed.

Lemma participants_room_update room key f :
  (forall user, UserPresence.userId (f user) = UserPresence.userId user
                /\ UserPresence.name (f user) = UserPresence.name user
                /\ UserPresence.color (f user) = UserPresence.color user) ->
  participants (room_update room key f) = participants room.
Proof.
  intros Hf. unfold participants, room_update. rewrite map_map.
  apply map_ext. intros [k v]. simpl.
  destruct (String.eqb k key); simpl; [|done].
  destruct (Hf v) as (-> & -> & ->). done.
Qed.

(** X14. A join never changes a document that is open, and the snapshot it
    sends to the joiner, last of its three messages, is the content and
    version the server holds for the document after the join. *)
Theorem join_keeps_documents now w documentId userId name color :
  (forall d st,
     Server.documentStates w !! d = Some st ->
     Server.documentStates (ServerHandlers.join now w documentId userId name color).1.1
       !! d = Some st)
  /\ exists st,
       Server.documentStates
         (ServerHandlers.join now w documentId userId name color).1.1 !! documentId
       = Some st
       /\ (Server.documentStates w !! documentId = None ->
           st = ServerDocumentState.new [] 0)
       /\ last (ServerHandlers.join now w documentId userId name color).2
          = Some (to_sender
                    (Message.document_state documentId "" "javascript"
                       (ServerDocumentState.content st)
                       (ServerDocumentState.version st))).
Proof.
  unfold ServerHandlers.join. simpl.
  destruct (Server.documentStates w !! documentId) as [st0|] eqn:Hst.
  - split; [done|]. exists st0. done.
  - split.
    + intros d st Hd. rewrite lookup_insert_ne; [done|]. congruence.
    + eexists. rewrite lookup_insert_eq. done.
Qed.

Lemma join_keeps_documents_witness :
  Server.documentStates
    (ServerHandlers.join 5 server_open "doc1" "bob" "Bob" "#ffffff").1.1 !! "doc1"
  = Some scenarioA_1.
Proof.
  apply (proj1 (join_keeps_documents 5 server_open "doc1" "bob" "Bob" "#ffffff")).
  reflexivity.
Defined.

(** X15. After a join the room holds the joiner once, with a fresh presence
    without cursor, also when the user was in the room already; the
    entries of the other users are as before, and the roster sent to the
    joiner is this room. *)
Theorem join_presence now w documentId userId name color :
  exists room,
    Server.roomUsers (ServerHandlers.join now w documentId userId name color).1.1
      !! documentId = Some room
    /\ room_get room userId = Some (UserPresence.mk userId name color None None now)
    /\ (forall other,
          other <> userId ->
          room_get room other
          = room_get (default [] (Server.roomUsers w !! documentId)) other)
    /\ (NoDup (map fst (default [] (Server.roomUsers w !! documentId))) ->
        NoDup (map fst room))
    /\ (ServerHandlers.join now w documentId userId name color).2 !! 1%nat
       = Some (to_sender (Message.presence_update (room_values room))).
Proof.
  unfold ServerHandlers.join. simpl. eexists. rewrite lookup_insert_eq.
  split_and!; [done| | | |done].
  - apply room_get_set_eq.
  - intros other Hne. by apply room_get_set_ne.
  - apply NoDup_keys_room_set.
Qed.

Lemma join_presence_witness :
  exists room,
    Server.roomUsers
      (ServerHandlers.join 9 server_open "doc1" "client1" "Al" "#000000").1.1
      !! "doc1" = Some room
    /\ NoDup (map fst room).
Proof.
  destruct (join_presence 9 server_open "doc1" "client1" "Al" "#000000")
    as (room & Hroom & _ & _ & Hnd & _).
  exists room. split; [exact Hroom|].
  apply Hnd. apply NoDup_singleton.
Defined.

(** X16. A join followed by the leave of the same user leaves the rooms as
    they were, when the user was not in the room before and the room was
    absent or not empty. *)
Theorem join_then_leave now w documentId userId name color :
  userId <> "" ->
  room_get (default [] (Server.roomUsers w !! documentId)) userId = None ->
  Server.roomUsers w !! documentId <> Some [] ->
  Server.roomUsers
    (Server.handleLeave (ServerHandlers.join now w documentId userId name color).1.1
       documentId (Some userId))
  = Server.roomUsers w
  /\ Server.documentStates
       (Server.handleLeave (ServerHandlers.join now w documentId userId name color).1.1
          documentId (Some userId))
     = Server.documentStates (ServerHandlers.join now w documentId userId name color).1.1.
Proof.
  intros Hid Hfresh Hnonempty. unfold ServerHandlers.join, Server.handleLeave. simpl.
  destruct userId as [|a userId]; [done|].
  rewrite lookup_insert_eq, room_delete_set_fresh by done. simpl.
  destruct (Server.roomUsers w !! documentId) as [[|kv room]|] eqn:Hroom; simpl.
  - done.
  - split; [|done]. rewrite insert_insert_eq. by apply insert_id.
  - split; [|done]. rewrite delete_insert_eq. by apply delete_id.
Qed.

Lemma join_then_leave_witness :
  Server.roomUsers
    (Server.handleLeave
       (ServerHandlers.join 5 server_open "doc1" "bob" "Bob" "#ffffff").1.1
       "doc1" (Some "bob"))
  = Server.roomUsers server_open.
Proof.
  apply (join_then_leave 5 server_open "doc1" "bob" "Bob" "#ffffff").
  - discriminate.
  - reflexivity.
  - discriminate.
Defined.

(** X17. An operation whose base version is ahead of the document of the
    connection changes nothing on the server, and the only message is
    the error to the sender. *)
Theorem operation_rejected now w conn op currentDocId docState :
  truthy (Connection.currentDocId conn) = Some currentDocId ->
  Server.documentStates w !! currentDocId = Some docState ->
  ServerDocumentState.version docState < DocumentOperation.version op ->
  ServerHandlers.operation now w conn op
  = (w, [to_sender (Message.document_error "failed to apply operation" "OP_FAILED")]).
Proof.
  intros Hdoc Hstate Hahead. unfold ServerHandlers.operation.
  rewrite Hdoc, Hstate.
  destruct (receiveOperation_cases docState op) as [[_ ->]|[Hle _]]; [|lia].
  rewrite insert_id by done. by destruct w.
Qed.

Lemma operation_rejected_witness :
  ServerHandlers.operation 5 server_open connection_client1
    (docop "client1" 7 [ins 0 "Z"])
  = (server_open,
     [to_sender (Message.document_error "failed to apply operation" "OP_FAILED")]).
Proof.
  apply (operation_rejected 5 server_open connection_client1
           (docop "client1" 7 [ins 0 "Z"]) "doc1" scenarioA_1); reflexivity.
Defined.

(** X18. Any other operation is applied to the document the connection has
    joined, whatever document the operation names: that document gets the
    state [receiveOperation] leaves, the sender gets the acknowledgement
    with the new version and the id of its operation, the others of the
    room get the canonical operation, and no other document changes. *)
Theorem operation_accepted now w conn op currentDocId docState :
  truthy (Connection.currentDocId conn) = Some currentDocId ->
  Server.documentStates w !! currentDocId = Some docState ->
  DocumentOperation.version op <= ServerDocumentState.version docState ->
  exists result docState',
    ServerDocumentState.receiveOperation docState op = (Some result, docState')
    /\ Server.documentStates (ServerHandlers.operation now w conn op).1
       = <[currentDocId := docState']> (Server.documentStates w)
    /\ ServerDocumentState.version docState'
       = ServerDocumentState.version docState + 1
    /\ (ServerHandlers.operation now w conn op).2
       = [to_sender (Message.document_ack
                       (ServerDocumentState.version docState + 1)
                       (DocumentOperation.id op));
          to_others ("doc:" +:+ currentDocId)
            (Message.document_operation (ServerDocumentState.transformed result))]
    /\ Server.saveRequests (ServerHandlers.operation now w conn op).1
       = Server.saveRequests w.
Proof.
  intros Hdoc Hstate Hle. unfold ServerHandlers.operation.
  rewrite Hdoc, Hstate.
  pose proof (receiveOperation_version docState op) as Hv.
  destruct (receiveOperation_cases docState op) as [[Hgt _]|[_ [ops Hacc]]]; [lia|].
  rewrite Hacc in *. rewrite accept_eq in *. simpl in *.
  eexists _, _. split; [done|]. destruct Hv as (? & ? & ?). done.
Qed.

Lemma operation_accepted_witness :
  exists result docState',
    ServerDocumentState.receiveOperation scenarioA_1 (docop "client2" 0 [del 0 1])
    = (Some result, docState')
    /\ ServerDocumentState.version docState' = 2.
Proof.
  destruct (operation_accepted 5 server_open connection_client1
              (docop "client2" 0 [del 0 1]) "doc1" scenarioA_1)
    as (result & docState' & Hr & _ & Hv & _).
  - reflexivity.
  - reflexivity.
  - by vm_compute.
  - exists result, docState'. split; [exact Hr|exact Hv].
Defined.

Lemma same_participants_update w documentId room key f ds sr em :
  Server.roomUsers w !! documentId = Some room ->
  (forall user, UserPresence.userId (f user) = UserPresence.userId user
                /\ UserPresence.name (f user) = UserPresence.name user
                /\ UserPresence.color (f user) = UserPresence.color user) ->
  same_participants w
    (Server.mk ds (<[documentId := room_update room key f]> (Server.roomUsers w)) sr em).
Proof.
  intros Hroom Hf d. simpl.
  destruct (decide (documentId = d)) as [<-|Hne].
  - rewrite lookup_insert_eq, Hroom. simpl. f_equal.
    by apply participants_room_update.
  - by rewrite lookup_insert_ne.
Qed.

(** X19. Operations, cursor updates, saves and [__initDocState] never add,
    remove, reorder or rename a participant of any room. *)
Theorem handlers_keep_participants now w conn :
  (forall op, same_participants w (ServerHandlers.operation now w conn op).1)
  /\ (forall documentId cursor selection,
        same_participants w
          (ServerHandlers.cursor_update now w conn documentId cursor selection).1)
  /\ (forall documentId content version outcome,
        same_participants w
          (ServerHandlers.save w documentId content version outcome).1)
  /\ (forall documentId content version,
        same_participants w
          (ServerHandlers.initDocState w documentId content version)).
Proof.
  split_and!.
  - intros op. unfold ServerHandlers.operation.
    destruct (truthy (Connection.currentDocId conn)) as [d|]; [|done].
    destruct (Server.documentStates w !! d) as [docState|]; [|done].
    destruct (ServerDocumentState.receiveOperation docState op) as [[r|] st']; [|done].
    simpl.
    destruct (truthy (Connection.currentUserId conn)) as [u|]; [|done].
    destruct (Server.roomUsers w !! d) as [room|] eqn:Hroom; [|done].
    destruct (room_has room u); [|done].
    by apply same_participants_update.
  - intros documentId cursor selection. unfold ServerHandlers.cursor_update.
    destruct (truthy (Connection.currentUserId conn)) as [u|]; [|done]. simpl.
    destruct (Server.roomUsers w !! documentId) as [room|] eqn:Hroom; [|done].
    destruct (room_has room u); [|done].
    by apply same_participants_update.
  - done.
  - intros documentId content version. unfold ServerHandlers.initDocState.
    destruct (Server.documentStates w !! documentId) as [st|]; [|done].
    by destruct (_ && _).
Qed.

(** X20. A save replaces the content the server holds for the document and
    leaves its version and its history as they are, without going through
    [receiveOperation]; it asks the document API to store the content and
    version it was given, and touches no other document. *)
Theorem save_overwrites_content w documentId content version outcome docState :
  Server.documentStates w !! documentId = Some docState ->
  (exists docState',
     Server.documentStates
       (ServerHandlers.save w documentId content version outcome).1 !! documentId
     = Some docState'
     /\ ServerDocumentState.content docState' = content
     /\ ServerDocumentState.version docState' = ServerDocumentState.version docState
     /\ ServerDocumentState.history docState' = ServerDocumentState.history docState)
  /\ (forall other,
        other <> documentId ->
        Server.documentStates
          (ServerHandlers.save w documentId content version outcome).1 !! other
        = Server.documentStates w !! other)
  /\ Server.saveRequests (ServerHandlers.save w documentId content version outcome).1
     = Server.saveRequests w
       ++ [Server.Build_SaveRequest documentId content version].
Proof.
  intros Hstate. unfold ServerHandlers.save. rewrite Hstate. simpl. split_and!.
  - eexists. rewrite lookup_insert_eq. done.
  - intros other Hne. by rewrite lookup_insert_ne.
  - done.
Qed.

Lemma save_overwrites_content_witness :
  Server.saveRequests
    (ServerHandlers.save server_open "doc1" (str "stale") 0 fetch_ok).1
  = [Server.Build_SaveRequest "doc1" (str "stale") 0].
Proof.
  apply (save_overwrites_content server_open "doc1" (str "stale") 0 fetch_ok
           scenarioA_1).
  reflexivity.
Defined.

(** X21. [__initDocState] is idempotent, and it leaves alone every document
    whose version is not 0; where it does load content into an open
    document, the history stays. *)
Theorem initDocState_idempotent w documentId content version :
  ServerHandlers.initDocState
    (ServerHandlers.initDocState w documentId content version)
    documentId content version
  = ServerHandlers.initDocState w documentId content version
  /\ (forall state,
        Server.documentStates w !! documentId = Some state ->
        (ServerDocumentState.version state <> 0 ->
         ServerHandlers.initDocState w documentId content version = w)
        /\ exists state',
             Server.documentStates
               (ServerHandlers.initDocState w documentId content version)
               !! documentId = Some state'
             /\ ServerDocumentState.history state'
                = ServerDocumentState.history state).
Proof.
  split.
  - unfold ServerHandlers.initDocState.
    destruct (Server.documentStates w !! documentId) as [state|] eqn:Hstate.
    + destruct (Z.eqb_spec (ServerDocumentState.version state) 0) as [Hz|Hnz];
        destruct (Z.gtb_spec version 0) as [Hpos|Hnpos]; simpl;
        rewrite ?Hstate; simpl.
      * rewrite lookup_insert_eq. simpl.
        destruct (Z.eqb_spec version 0); [lia|done].
      * destruct (Z.eqb_spec (ServerDocumentState.version state) 0); [|lia].
        destruct (Z.gtb_spec version 0); [lia|done].
      * destruct (Z.eqb_spec (ServerDocumentState.version state) 0); [lia|done].
      * destruct (Z.eqb_spec (ServerDocumentState.version state) 0); [lia|done].
    + simpl. rewrite lookup_insert_eq. simpl.
      destruct (Z.eqb_spec version 0) as [->|]; [|done].
      by destruct (Z.gtb_spec 0 0); [lia|].
  - intros state Hstate. unfold ServerHandlers.initDocState. rewrite Hstate. split.
    + intros Hnz.
      by destruct (Z.eqb_spec (ServerDocumentState.version state) 0).
    + destruct (_ && _); simpl.
      * eexists. by rewrite lookup_insert_eq.
      * eauto.
Qed.

Lemma initDocState_idempotent_witness :
  ServerHandlers.initDocState server_open "doc1" (str "from the store") 9
  = server_open.
Proof.
  apply (proj2 (initDocState_idempotent server_open "doc1" (str "from the store") 9)
           scenarioA_1).
  - reflexivity.
  - discriminate.
Defined.

(** X22. A disconnect does for the document the connection has joined what
    an explicit leave of that document does, and after an explicit leave
    a disconnect changes nothing: the user is taken out of the room once. *)
Theorem disconnect_is_leave w conn currentDocId :
  truthy (Connection.currentDocId conn) = Some currentDocId ->
  ServerHandlers.disconnect w conn = (ServerHandlers.leave w conn currentDocId).1
  /\ ServerHandlers.disconnect (ServerHandlers.leave w conn currentDocId).1
       (ServerHandlers.leave w conn currentDocId).2
     = (ServerHandlers.leave w conn currentDocId).1.
Proof.
  intros Hdoc. unfold ServerHandlers.disconnect, ServerHandlers.leave.
  rewrite Hdoc. simpl. split; [|done].
  by destruct (Connection.currentUserId conn) as [[|a u]|].
Qed.

Lemma disconnect_is_leave_witness :
  ServerHandlers.disconnect server_open connection_client1
  = (ServerHandlers.leave server_open connection_client1 "doc1").1.
Proof.
  apply (disconnect_is_leave server_open connection_client1 "doc1").
  reflexivity.
Defined.

End server_handlers.

(** ** The other handlers of the standalone socket server *)

Section socket_server_handlers.
Context (createDocumentState : jsstring -> Z -> jsstring * Z)
        (title_language : string -> string * string).
Implicit Types (w : SocketServer.t) (op : DocumentOperation.t)
  (state : SocketServer.DocState).

(** X23. The standalone server never rejects and never transforms: whatever
    base version an operation carries, it is applied as submitted to the
    document it names, the version goes up by one, the others of the room
    get the operation with the new version and the sender gets an
    acknowledgement that does not carry the id of the operation. *)
Theorem standalone_operation_applied now w op state :
  SocketServer.documentStates w !! DocumentOperation.documentId op = Some state ->
  (exists state',
     SocketServer.documentStates (SocketServerHandlers.operation now w op).1
       !! DocumentOperation.documentId op = Some state'
     /\ SocketServer.content state'
        = fold_left applyOperation (DocumentOperation.operations op)
                    (SocketServer.content state)
     /\ SocketServer.version state' = SocketServer.version state + 1)
  /\ (SocketServerHandlers.operation now w op).2
     = [to_others (DocumentOperation.documentId op)
          (Message.document_operation
             (DocumentOperation.mk (SocketServerHandlers.id_or_generated op)
                (DocumentOperation.documentId op) (DocumentOperation.userId op)
                (SocketServer.version state + 1)
                (DocumentOperation.operations op) now));
        to_sender (Message.document_ack (SocketServer.version state + 1)
                                        "optimistic-ack")]
  /\ (forall base,
        SocketServerHandlers.operation now w (DocumentOperation.with_version op base)
        = SocketServerHandlers.operation now w op).
Proof.
  intros Hstate. split_and!.
  - unfold SocketServerHandlers.operation. rewrite Hstate. simpl.
    destruct (_ >? 2000).
    + unfold SocketServer.saveToDb.
      destruct (SocketServer.db w !! DocumentOperation.documentId op); simpl;
        eexists; rewrite lookup_insert_eq; done.
    + simpl. eexists. rewrite lookup_insert_eq. done.
  - unfold SocketServerHandlers.operation. rewrite Hstate. simpl.
    destruct (_ >? 2000); [|done].
    unfold SocketServer.saveToDb.
    by destruct (SocketServer.db w !! DocumentOperation.documentId op).
  - done.
Qed.

Lemma standalone_operation_applied_witness :
  exists state',
    SocketServer.documentStates
      (SocketServerHandlers.operation 9 socket_server_one_left
         (DocumentOperation.mk "op" "doc1" "alice" 99 [ins 5 "!"] 0)).1
      !! "doc1" = Some state'
    /\ SocketServer.content state' = str "hello!"
    /\ SocketServer.version state' = 4.
Proof.
  apply (standalone_operation_applied 9 socket_server_one_left
           (DocumentOperation.mk "op" "doc1" "alice" 99 [ins 5 "!"] 0)
           socket_server_state).
  reflexivity.
Defined.





End socket_server_handlers.


(** ** The client hook *)

Section client.
Import ClientSocket.
Context (documentId userId userName userColor : string).
Implicit Types (s : ClientSocket.t) (events : list Event).

Lemma operations_emitted_app em em' c p u :
  operations_emitted (mk c p u (em ++ em'))
  = operations_emitted (mk c p u em) ++ operations_emitted (mk c p u em').
Proof. unfold operations_emitted. simpl. apply omap_app. Qed.

Lemma operations_emitted_map c p u (ops : list DocumentOperation.t) :
  operations_emitted (mk c p u (map document_operation ops)) = ops.
Proof.
  unfold operations_emitted. simpl. induction ops as [|op ops IH]; [done|].
  simpl. f_equal. exact IH.
Qed.

(** One step keeps the operations in order and keeps the queue empty
    while connected. *)
Lemma step_queue s e :
  (connected s = true -> pendingOps s = []) ->
  (connected (step documentId userId userName userColor s e) = true ->
   pendingOps (step documentId userId userName userColor s e) = [])
  /\ operations_emitted (step documentId userId userName userColor s e)
     ++ pendingOps (step documentId userId userName userColor s e)
     = operations_emitted s ++ pendingOps s ++ operations_sent [e].
Proof.
  intros Hinv. destruct s as [c p u em]. simpl in *.
  destruct e as [| |op]; simpl.
  - unfold on_connect. simpl.
    destruct (Z.ltb_spec 0 (len p)) as [Hsome|Hnone]; simpl.
    + split; [done|]. rewrite app_nil_r, app_assoc, !operations_emitted_app.
      rewrite operations_emitted_map. unfold operations_emitted. simpl.
      by rewrite !app_nil_r.
    + assert (p = []) as -> by (destruct p; [done|unfold len in *; simpl in *; lia]).
      split; [done|]. rewrite operations_emitted_app.
      unfold operations_emitted. simpl. by rewrite !app_nil_r.
  - split; [done|]. unfold operations_emitted. simpl. by rewrite app_nil_r.
  - unfold sendOperation. simpl. destruct c; simpl.
    + split; [done|]. rewrite (Hinv eq_refl).
      rewrite operations_emitted_app. unfold operations_emitted. simpl.
      by rewrite !app_nil_r.
    + split; [done|]. done.
Qed.

(** X27. Whatever the order of connects, disconnects and sends, every
    operation handed to [sendOperation] is either emitted or still in the
    queue, once, and in the order it was handed over; while the socket is
    connected the queue is empty, so all of them have been emitted. *)
Theorem operations_kept_in_order events :
  operations_emitted (run documentId userId userName userColor events)
  ++ pendingOps (run documentId userId userName userColor events)
  = operations_sent events
  /\ (if connected (run documentId userId userName userColor events)
      then operations_emitted (run documentId userId userName userColor events)
           = operations_sent events
      else True).
Proof.
  assert (forall s,
            (connected s = true -> pendingOps s = []) ->
            let final := fold_left (step documentId userId userName userColor) events s in
            (connected final = true -> pendingOps final = [])
            /\ operations_emitted final ++ pendingOps final
               = operations_emitted s ++ pendingOps s ++ operations_sent events)
    as Hgen.
  { induction events as [|e rest IH]; intros s Hinv; simpl.
    - split; [done|]. unfold operations_sent. simpl. by rewrite !app_nil_r.
    - destruct (step_queue s e Hinv) as [Hinv' Hstep].
      destruct (IH _ Hinv') as [Hfinal Hrest]. split; [done|].
      rewrite Hrest, app_assoc, Hstep. unfold operations_sent. simpl.
      destruct e; simpl; rewrite ?app_nil_r, <-?app_assoc; done. }
  destruct (Hgen initial ltac:(done)) as [Hempty Hall]. unfold run.
  simpl in Hall. split; [done|].
  destruct (connected _) eqn:Hc; [|done].
  rewrite (Hempty eq_refl), app_nil_r in Hall. done.
Qed.

Lemma userId_filter_ne (id : string) (l : list UserPresence.t) :
  Forall (fun u => UserPresence.userId u <> id)
         (List.filter (fun u => negb (String.eqb (UserPresence.userId u) id)) l).
Proof.
  apply Forall_forall. intros u Hu.
  apply list_elem_of_In, filter_In in Hu as [_ Hu].
  apply negb_true_iff, String.eqb_neq in Hu. done.
Qed.

Lemma NoDup_userId_filter (f : UserPresence.t -> bool) (l : list UserPresence.t) :
  NoDup (map UserPresence.userId l) ->
  NoDup (map UserPresence.userId (List.filter f l)).
Proof.
  induction l as [|u l IH]; simpl; [done|].
  intros Hnd. apply NoDup_cons in Hnd as [Hu Hnd].
  destruct (f u); simpl; [|by apply IH].
  apply NoDup_cons. split; [|by apply IH].
  intros Hin. apply Hu.
  apply list_elem_of_In, in_map_iff in Hin as (u' & Heq & Hin).
  apply filter_In in Hin as [Hin _].
  apply list_elem_of_In, in_map_iff. eauto.
Qed.

(** X28. The list of users: after [presence:joined] the user is listed once,
    last, and after [presence:left] not at all; in both cases the other
    users stay as they were, in order; a user who joins and leaves again
    leaves the list as it was; and a cursor update changes nobody's
    identity. User ids that are distinct stay distinct. *)
Theorem presence_list user leftUserId now uid cursor selection
    (prev : list UserPresence.t) :
  (exists others,
     presence_joined user prev = others ++ [user]
     /\ Forall (fun u => UserPresence.userId u <> UserPresence.userId user) others
     /\ others = presence_left (UserPresence.userId user) prev)
  /\ Forall (fun u => UserPresence.userId u <> leftUserId)
            (presence_left leftUserId prev)
  /\ presence_left (UserPresence.userId user) (presence_joined user prev)
     = presence_left (UserPresence.userId user) prev
  /\ map UserPresence.userId (cursor_update now uid cursor selection prev)
     = map UserPresence.userId prev
  /\ (if decide (NoDup (map UserPresence.userId prev)) then
        NoDup (map UserPresence.userId (presence_joined user prev))
        /\ NoDup (map UserPresence.userId (presence_left leftUserId prev))
      else True).
Proof.
  split_and!.
  - eexists. split; [done|]. split; [apply userId_filter_ne|done].
  - apply userId_filter_ne.
  - unfold presence_left, presence_joined. rewrite List.filter_app. simpl.
    rewrite String.eqb_refl. simpl. rewrite app_nil_r.
    induction prev as [|u l IH]; simpl; [done|].
    destruct (String.eqb_spec (UserPresence.userId u) (UserPresence.userId user));
      simpl; [done|].
    destruct (String.eqb_spec (UserPresence.userId u) (UserPresence.userId user));
      simpl; [done|]. by rewrite IH.
  - unfold cursor_update. rewrite map_map. apply map_ext. intros u.
    by destruct (String.eqb _ _).
  - case_decide as Hnd; [|done]. split.
    + unfold presence_joined. rewrite map_app. apply NoDup_app. split_and!.
      * by apply NoDup_userId_filter.
      * intros id Hin Hin'. simpl in Hin'.
        apply list_elem_of_singleton in Hin' as ->.
        apply list_elem_of_In, in_map_iff in Hin as (u & Heq & Hin).
        apply filter_In in Hin as [_ Hne].
        apply negb_true_iff, String.eqb_neq in Hne. done.
      * simpl. apply NoDup_singleton.
    + by apply NoDup_userId_filter.
Qed.

End client.
